(** * The user-record command line tool of [app/cli.py]

    A shallow embedding of the eight commands of [src/app/cli.py] and of the
    session they run against, followed by the properties of the commands.

    The commands are written in a small state-and-exception monad [Cmd] over
    a [World] made of the durable table, the objects and the unit of work of
    the open session, and the lines printed so far. *)

From Stdlib Require Import ZArith List String Ascii Bool Lia.
Import ListNotations.

Local Open Scope string_scope.
Local Open Scope list_scope.

(** ** Data model *)

(** Modelled from the spec: the [User] class of [app/models.py], which is not
    part of the sources at hand.  Section 3 of the specification gives its
    attributes: an [id] generated by the store (absent until the first
    successful persist), and three texts.  The constructor takes
    (username, email, password). *)
Module User.
Record t : Type := mk
  { id : option Z;
    username : string;
    email : string;
    password : string }.

(** [User(username, email, password)]: a transient object, no [id] yet. *)
Definition new (username email password : string) : t :=
  mk None username email password.

Definition with_id (i : Z) (u : t) : t :=
  mk (Some i) (username u) (email u) (password u).

Definition with_email (e : string) (u : t) : t :=
  mk (id u) (username u) e (password u).
End User.

(** The two uniqueness rules of the table (section 6 of the specification:
    a unique constraint on [username] and on [email]). *)
Inductive Constraint : Type :=
| UniqueUsername
| UniqueEmail.

(** Exceptions that can leave a command.  [IntegrityError] is
    [sqlalchemy.exc.IntegrityError] and carries the store's own error
    ([e.orig]); [BadParameter] is what [typer] raises for an argument below
    its [min]; [InvalidRequestError] is the session's complaint about an
    object it cannot reload. *)
Inductive Exn : Type :=
| IntegrityError (orig : Constraint)
| BadParameter (param : string)
| InvalidRequestError.

(** What [print] receives: a text, a record ([print(user)], whose layout is
    fixed by [User.__str__] in the absent [app/models.py]), or the store's
    error ([print(e.orig)]). *)
Inductive Output : Type :=
| Line (s : string)
| Rec (u : User.t)
| Orig (c : Constraint).

(** Objects are Python references: positions in the session's object list. *)
Definition ref : Type := nat.

(** A staged change of the session's unit of work. *)
Inductive Mutation : Type :=
| Insert (r : ref)        (* a new object given to [db.add] *)
| UpdateEmail (r : ref)   (* a persistent object whose [email] was assigned *)
| Delete (r : ref).       (* an object given to [db.delete] *)

Record World : Type := mkWorld
  { durable : list User.t;      (* the committed rows, in store order *)
    objects : list User.t;      (* the objects the running command holds *)
    pending : list Mutation;    (* the session's unit of work *)
    stdout : list Output }.     (* what has been printed, oldest first *)

(** ** The command monad *)

Definition Cmd (A : Type) : Type := World -> World * (Exn + A).

Definition ret {A : Type} (a : A) : Cmd A := fun w => (w, inr a).

Definition bind {A B : Type} (c : Cmd A) (k : A -> Cmd B) : Cmd B :=
  fun w =>
    match c w with
    | (w', inr a) => k a w'
    | (w', inl e) => (w', inl e)
    end.

Definition raise {A : Type} (e : Exn) : Cmd A := fun w => (w, inl e).

Notation "x <- c1 ;; c2" := (bind c1 (fun x => c2))
  (at level 61, c1 at next level, right associativity).
Notation "c1 ;; c2" := (bind c1 (fun _ => c2))
  (at level 61, right associativity).

(** [try: body / except IntegrityError as e: handler e / else: orelse].
    Only [IntegrityError] is caught, and only when raised by [body]. *)
Definition try_except_IntegrityError {A : Type}
    (body : Cmd unit) (handler : Constraint -> Cmd A) (orelse : Cmd A) : Cmd A :=
  fun w =>
    match body w with
    | (w', inr _) => orelse w'
    | (w', inl (IntegrityError c)) => handler c w'
    | (w', inl e) => (w', inl e)
    end.

(** [for x in xs: body x] *)
Fixpoint for_each {A : Type} (xs : list A) (body : A -> Cmd unit) : Cmd unit :=
  match xs with
  | [] => ret tt
  | x :: xs' => body x ;; for_each xs' body
  end.

Definition print (o : Output) : Cmd unit :=
  fun w => (mkWorld (durable w) (objects w) (pending w) (stdout w ++ [o]), inr tt).

(** The double-quote character of the message of [find_user_partial]. *)
Definition dquote : string := String "034"%char EmptyString.

(** ** Column operators *)

(** SQL [LIKE]: [%] stands for any run of characters, [_] for any one
    character, every other character for itself.

    Modelled from the spec: the comparison of ordinary characters is exact
    (case-sensitive), as section 8 of the specification has it; the backend
    that fixes the collation is chosen in the absent [app/database.py]. *)
Fixpoint like (pattern s : string) {struct pattern} : bool :=
  match pattern with
  | EmptyString =>
      match s with
      | EmptyString => true
      | String _ _ => false
      end
  | String c pattern' =>
      if Ascii.eqb c "%" then
        (fix any_suffix (t : string) : bool :=
           like pattern' t
           || match t with
              | EmptyString => false
              | String _ t' => any_suffix t'
              end) s
      else
        match s with
        | EmptyString => false
        | String d s' => (Ascii.eqb c "_" || Ascii.eqb c d) && like pattern' s'
        end
  end.

(** [column.contains(other)] of SQLAlchemy, called without [autoescape]:
    it renders [column LIKE '%' || other || '%']. *)
Definition contains (column other : string) : bool :=
  like ("%" ++ other ++ "%") column.

(** [p] occurs in [s] as a contiguous run of characters, compared exactly. *)
Fixpoint is_substring (p s : string) : bool :=
  String.prefix p s
  || match s with
     | EmptyString => false
     | String _ s' => is_substring p s'
     end.

(** No character of [p] is a [LIKE] wildcard. *)
Fixpoint wildcard_free (p : string) : bool :=
  match p with
  | EmptyString => true
  | String c p' => negb (Ascii.eqb c "%") && negb (Ascii.eqb c "_") && wildcard_free p'
  end.

(** ** Select statements *)

Record Select : Type := mkSelect
  { where_clause : User.t -> bool;
    offset_clause : option Z;
    limit_clause : option Z }.

(** [select(User)] *)
Definition select_User : Select := mkSelect (fun _ => true) None None.

(** [.where(p)], [.offset(n)], [.limit(n)] *)
Definition where_ (p : User.t -> bool) (q : Select) : Select :=
  mkSelect (fun u => where_clause q u && p u) (offset_clause q) (limit_clause q).
Definition offset (n : Z) (q : Select) : Select :=
  mkSelect (where_clause q) (Some n) (limit_clause q).
Definition limit (n : Z) (q : Select) : Select :=
  mkSelect (where_clause q) (offset_clause q) (Some n).

(** The rows a statement yields on a table: the matching rows in store
    order, after skipping [offset] of them, at most [limit] of them.  The
    commands only pass an offset and a limit that [typer] has checked to be
    non-negative. *)
Definition rows_of (q : Select) (table : list User.t) : list User.t :=
  let matching := filter (where_clause q) table in
  let skipped :=
    match offset_clause q with
    | None => matching
    | Some n => skipn (Z.to_nat n) matching
    end in
  match limit_clause q with
  | None => skipped
  | Some n => firstn (Z.to_nat n) skipped
  end.

(** ** The storage gateway *)

Definition id_eqb (a b : option Z) : bool :=
  match a, b with
  | Some x, Some y => Z.eqb x y
  | None, None => true
  | _, _ => false
  end.

Fixpoint set_nth {A : Type} (n : nat) (x : A) (l : list A) : list A :=
  match l, n with
  | [], _ => []
  | _ :: l', O => x :: l'
  | y :: l', S n' => y :: set_nth n' x l'
  end.

Section Gateway.

(** The key the store gives to a row inserted into a table: the store's
    business (section 3: "generated by store"), so a parameter here. *)
Variable fresh_id : list User.t -> Z.

(** One staged change applied to the working copy of the table (and to
    the objects, which learn their key on insert).  A change that would
    break a uniqueness rule yields the broken rule instead. *)
Definition flush1 (m : Mutation) (st : list User.t * list User.t)
  : Constraint + (list User.t * list User.t) :=
  let (table, objs) := st in
  match m with
  | Insert r =>
      match nth_error objs r with
      | None => inr st
      | Some o =>
          if existsb (fun x => String.eqb (User.username x) (User.username o)) table
          then inl UniqueUsername
          else if existsb (fun x => String.eqb (User.email x) (User.email o)) table
          then inl UniqueEmail
          else
            let o' := User.with_id (fresh_id table) o in
            inr (table ++ [o'], set_nth r o' objs)
      end
  | UpdateEmail r =>
      match nth_error objs r with
      | None => inr st
      | Some o =>
          if existsb (fun x => negb (id_eqb (User.id x) (User.id o))
                               && String.eqb (User.email x) (User.email o)) table
          then inl UniqueEmail
          else
            inr (map (fun x => if id_eqb (User.id x) (User.id o)
                               then User.with_email (User.email o) x
                               else x) table,
                 objs)
      end
  | Delete r =>
      match nth_error objs r with
      | None => inr st
      | Some o =>
          inr (filter (fun x => negb (id_eqb (User.id x) (User.id o))) table, objs)
      end
  end.

Fixpoint flush (ms : list Mutation) (st : list User.t * list User.t)
  : Constraint + (list User.t * list User.t) :=
  match ms with
  | [] => inr st
  | m :: ms' =>
      match flush1 m st with
      | inl c => inl c
      | inr st' => flush ms' st'
      end
  end.

(** Modelled from the spec: [get_session] of the absent [app/database.py],
    "a scoped session, guaranteed released after use" on every exit path.
    The body starts with an empty session; whatever is still staged when
    the block is left, normally or by an exception, is discarded. *)
Definition with_session {A : Type} (body : Cmd A) : Cmd A :=
  fun w =>
    match body (mkWorld (durable w) [] [] (stdout w)) with
    | (w', r) => (mkWorld (durable w') [] [] (stdout w'), r)
    end.

(** Modelled from the spec: [drop_all] and [create_db_and_tables] of the
    absent [app/database.py], the "destructive reset" and the "schema
    (re)creation" of section 4.1: the first removes the table with its
    rows, the second leaves an existing table alone and creates a missing
    one empty.  A table is identified with its rows. *)
Definition drop_all : Cmd unit :=
  fun w => (mkWorld [] (objects w) (pending w) (stdout w), inr tt).
Definition create_db_and_tables : Cmd unit := ret tt.

(** [User(username, email, password)] allocates a transient object. *)
Definition User_ (username email password : string) : Cmd ref :=
  fun w =>
    (mkWorld (durable w) (objects w ++ [User.new username email password])
             (pending w) (stdout w),
     inr (List.length (objects w))).

(** Reading an object through its reference. *)
Definition get (r : ref) : Cmd User.t :=
  fun w =>
    match nth_error (objects w) r with
    | Some o => (w, inr o)
    | None => (w, inl InvalidRequestError)
    end.

(** [print(user)] *)
Definition print_user (r : ref) : Cmd unit :=
  o <- get r ;; print (Rec o).

(** [db.exec(q).first()]: the first row of the result, loaded as an
    object, or [None]. *)
Definition exec_first (q : Select) : Cmd (option ref) :=
  fun w =>
    match rows_of q (durable w) with
    | [] => (w, inr None)
    | row :: _ =>
        (mkWorld (durable w) (objects w ++ [row]) (pending w) (stdout w),
         inr (Some (List.length (objects w))))
    end.

(** [db.exec(q).all()]: every row of the result, loaded as objects. *)
Definition exec_all (q : Select) : Cmd (list ref) :=
  fun w =>
    let rows := rows_of q (durable w) in
    (mkWorld (durable w) (objects w ++ rows) (pending w) (stdout w),
     inr (seq (List.length (objects w)) (List.length rows))).

(** [user.email = new_email]: the object changes, and the session, which
    tracks the attributes of the persistent objects it loaded, marks it
    dirty. *)
Definition set_email (r : ref) (e : string) : Cmd unit :=
  fun w =>
    match nth_error (objects w) r with
    | None => (w, inl InvalidRequestError)
    | Some o =>
        (mkWorld (durable w) (set_nth r (User.with_email e o) (objects w))
                 (match User.id o with
                  | Some _ => pending w ++ [UpdateEmail r]
                  | None => pending w
                  end)
                 (stdout w),
         inr tt)
    end.

(** [db.add(obj)]: a transient object is staged for insertion; an object
    the session already holds stays as it is. *)
Definition db_add (r : ref) : Cmd unit :=
  fun w =>
    match nth_error (objects w) r with
    | None => (w, inl InvalidRequestError)
    | Some o =>
        (mkWorld (durable w) (objects w)
                 (match User.id o with
                  | None => pending w ++ [Insert r]
                  | Some _ => pending w
                  end)
                 (stdout w),
         inr tt)
    end.

(** [db.delete(obj)] *)
Definition db_delete (r : ref) : Cmd unit :=
  fun w =>
    (mkWorld (durable w) (objects w) (pending w ++ [Delete r]) (stdout w), inr tt).

(** [db.commit()]: the staged changes are applied in turn; if all pass,
    the result becomes the durable table.  If one breaks a uniqueness
    rule, [IntegrityError] is raised and the durable table is what it was;
    the failed unit of work stays in the session until [rollback]. *)
Definition db_commit : Cmd unit :=
  fun w =>
    match flush (pending w) (durable w, objects w) with
    | inl c => (w, inl (IntegrityError c))
    | inr (table', objs') => (mkWorld table' objs' [] (stdout w), inr tt)
    end.

(** [db.rollback()] discards the staged changes. *)
Definition db_rollback : Cmd unit :=
  fun w => (mkWorld (durable w) (objects w) [] (stdout w), inr tt).

(** [db.refresh(obj)]: the object is read again from its row. *)
Definition db_refresh (r : ref) : Cmd unit :=
  fun w =>
    match nth_error (objects w) r with
    | None => (w, inl InvalidRequestError)
    | Some o =>
        match find (fun x => id_eqb (User.id x) (User.id o)) (durable w) with
        | None => (w, inl InvalidRequestError)
        | Some row =>
            (mkWorld (durable w) (set_nth r row (objects w)) (pending w) (stdout w),
             inr tt)
        end
    end.

(** [typer.Argument(min=m)]: checked when the command line is parsed,
    before the command's body runs. *)
Definition typer_min (param : string) (m v : Z) : Cmd unit :=
  if (v <? m)%Z then raise (BadParameter param) else ret tt.

(** ** The commands of [cli.py] *)

Definition initialize : Cmd unit :=
  with_session (
    drop_all ;;
    create_db_and_tables ;;
    bob <- User_ "bob" "bob@mail.com" "bobpass" ;;
    db_add bob ;;
    db_commit ;;
    db_refresh bob ;;
    print (Line "Database Initialized")).

Definition get_user (username : string) : Cmd unit :=
  with_session (
    user <- exec_first
              (where_ (fun u => String.eqb (User.username u) username) select_User) ;;
    match user with
    | None => print (Line (username ++ " not found!"))
    | Some user => print_user user
    end).

Definition get_all_users : Cmd unit :=
  with_session (
    all_users <- exec_all select_User ;;
    match all_users with
    | [] => print (Line "No users found!")
    | _ => for_each all_users print_user
    end).

Definition change_email (username new_email : string) : Cmd unit :=
  with_session (
    user <- exec_first
              (where_ (fun u => String.eqb (User.username u) username) select_User) ;;
    match user with
    | None => print (Line (username ++ " not found! Unable to update email."))
    | Some user =>
        set_email user new_email ;;
        db_add user ;;
        db_commit ;;
        u <- get user ;;
        print (Line ("Updated " ++ User.username u ++ "'s email to " ++ User.email u))
    end).

(** The block of [create_user] under [with get_session() as db:]
    (lines 71 to 80), named so that the state of the session at its end,
    before the session is released, can be spoken of. *)
Definition create_user_block (username email password : string) : Cmd unit :=
  newuser <- User_ username email password ;;
  try_except_IntegrityError
    (db_add newuser ;; db_commit)
    (fun e =>
       db_rollback ;;
       print (Orig e) ;;
       print (Line "Username or email already taken!"))
    (print_user newuser).

Definition create_user (username email password : string) : Cmd unit :=
  with_session (create_user_block username email password).

Definition delete_user (username : string) : Cmd unit :=
  with_session (
    user <- exec_first
              (where_ (fun u => String.eqb (User.username u) username) select_User) ;;
    match user with
    | None => print (Line (username ++ " not found! Unable to delete user."))
    | Some user =>
        db_delete user ;;
        db_commit ;;
        print (Line ("User " ++ username ++ " deleted successfully."))
    end).

Definition find_user_partial (partial : string) : Cmd unit :=
  with_session (
    users <- exec_all
               (where_ (fun u => contains (User.username u) partial
                                 || contains (User.email u) partial) select_User) ;;
    match users with
    | [] => print (Line ("No users found matching " ++ dquote ++ partial ++ dquote))
    | _ => for_each users print_user
    end).

(** [typer] supplies 10 and 0 when the arguments are left out. *)
Definition list_users (limit_ offset_ : Z) : Cmd unit :=
  typer_min "limit" 1 limit_ ;;
  typer_min "offset" 0 offset_ ;;
  with_session (
    users <- exec_all (limit limit_ (offset offset_ select_User)) ;;
    match users with
    | [] => print (Line "No users found!")
    | _ => for_each users print_user
    end).

End Gateway.

(** The rule of a store that gives a new row one more than the largest key
    in the table; used to run the commands on concrete tables. *)
Definition next_rowid (table : list User.t) : Z :=
  1 + fold_right (fun u m => match User.id u with
                             | Some i => Z.max i m
                             | None => m
                             end) 0%Z table.

(** The row that [initialize] leaves under [next_rowid], and a second row,
    as [create_user] would add it. *)
Definition bob_row : User.t := User.mk (Some 1%Z) "bob" "bob@mail.com" "bobpass".
Definition alice_row : User.t := User.mk (Some 2%Z) "alice" "alice@mail.com" "alicepass".

(** A fresh process in front of a given table: no objects, nothing staged,
    nothing printed yet. *)
Definition fresh_process (table : list User.t) : World := mkWorld table [] [] [].

(** The invariant of the durable table: every row has a key, and keys,
    usernames and emails are each unique. *)
Definition wf_table (table : list User.t) : Prop :=
  Forall (fun x => User.id x <> None) table
  /\ NoDup (map User.id table)
  /\ NoDup (map User.username table)
  /\ NoDup (map User.email table).

(** [p] occurs in [s]: [s] is some text, then [p], then some text. *)
Definition occurs (p s : string) : Prop :=
  exists a b : string, s = (a ++ p ++ b)%string.

(** * Properties *)

(** ** Strings *)

Lemma like_percent_any (s : string) : like "%" s = true.
Proof.
  induction s as [|c s IH]; [reflexivity|].
  simpl in *. rewrite IH. reflexivity.
Qed.

Lemma like_percent_unfold (pattern s : string) :
  like (String "%" pattern) s
  = like pattern s
    || match s with
       | EmptyString => false
       | String _ s' => like (String "%" pattern) s'
       end.
Proof. destruct s; reflexivity. Qed.

(** A pattern without wildcards, followed by [%], matches exactly the
    strings it is a prefix of. *)
Lemma like_plain_prefix (p s : string) :
  wildcard_free p = true -> like (p ++ "%") s = String.prefix p s.
Proof.
  revert s. induction p as [|c p IH]; intros s Hp.
  - simpl String.append. rewrite like_percent_any. destruct s; reflexivity.
  - simpl in Hp. apply andb_true_iff in Hp as [Hc Hp].
    apply andb_true_iff in Hc as [Hpc Hus].
    apply negb_true_iff in Hpc, Hus.
    simpl. rewrite Hpc. destruct s as [|d s]; [reflexivity|].
    rewrite Hus, (IH s Hp). simpl.
    destruct (Ascii.ascii_dec c d) as [->|Hne].
    + rewrite Ascii.eqb_refl. reflexivity.
    + apply Ascii.eqb_neq in Hne. rewrite Hne. reflexivity.
Qed.

(** On a search text without wildcards, the [LIKE] that [contains] renders
    is the plain substring test. *)
Lemma contains_plain (p s : string) :
  wildcard_free p = true -> contains s p = is_substring p s.
Proof.
  intros Hp. unfold contains. change ("%" ++ p ++ "%")%string with (String "%" (p ++ "%")).
  induction s as [|d s IH].
  - rewrite like_percent_unfold, (like_plain_prefix p _ Hp). reflexivity.
  - rewrite like_percent_unfold, (like_plain_prefix p _ Hp), IH. reflexivity.
Qed.

Lemma prefix_app (p s : string) : String.prefix p (p ++ s) = true.
Proof.
  induction p as [|c p IH]; simpl.
  - destruct s; reflexivity.
  - rewrite IH. destruct (Ascii.ascii_dec c c); [reflexivity|contradiction].
Qed.

Lemma is_substring_unfold (p s : string) :
  is_substring p s
  = String.prefix p s
    || match s with
       | EmptyString => false
       | String _ s' => is_substring p s'
       end.
Proof. destruct s; reflexivity. Qed.

Lemma prefix_refl (p : string) : String.prefix p p = true.
Proof.
  induction p as [|c p IH]; simpl; [reflexivity|].
  rewrite IH. destruct (Ascii.ascii_dec c c); [reflexivity|contradiction].
Qed.

Lemma is_substring_here (p s : string) :
  String.prefix p s = true -> is_substring p s = true.
Proof. intros H. rewrite is_substring_unfold, H. reflexivity. Qed.

Lemma is_substring_skip (a p s : string) :
  is_substring p s = true -> is_substring p (a ++ s) = true.
Proof.
  intros H. induction a as [|c a IH]; [exact H|].
  change (String c a ++ s)%string with (String c (a ++ s)).
  rewrite is_substring_unfold, IH. apply orb_true_r.
Qed.

Lemma is_substring_app (a p b : string) : is_substring p (a ++ p ++ b) = true.
Proof. apply is_substring_skip, is_substring_here, prefix_app. Qed.

(** ** Lists and objects *)

Lemma filter_head_find {A : Type} (p : A -> bool) (l : list A) :
  match filter p l with
  | [] => None
  | x :: _ => Some x
  end = find p l.
Proof.
  induction l as [|a l IH]; simpl; [reflexivity|].
  destruct (p a); [reflexivity|exact IH].
Qed.

Lemma find_none_filter {A : Type} (p : A -> bool) (l : list A) :
  find p l = None -> filter p l = [].
Proof.
  intros H. rewrite <- filter_head_find in H.
  destruct (filter p l); [reflexivity|discriminate].
Qed.

Lemma nth_error_middle {A : Type} (pre : list A) (x : A) (post : list A) :
  nth_error (pre ++ x :: post) (List.length pre) = Some x.
Proof. induction pre as [|a pre IH]; simpl; [reflexivity|exact IH]. Qed.

Lemma rows_where (p : User.t -> bool) (table : list User.t) :
  rows_of (where_ p select_User) table = filter p table.
Proof. reflexivity. Qed.

Lemma rows_all (table : list User.t) : rows_of select_User table = table.
Proof.
  unfold rows_of, select_User; simpl.
  induction table as [|a t IH]; simpl; [reflexivity|now rewrite IH].
Qed.

Lemma rows_page (l o : Z) (table : list User.t) :
  rows_of (limit l (offset o select_User)) table
  = firstn (Z.to_nat l) (skipn (Z.to_nat o) table).
Proof.
  unfold rows_of, limit, offset; simpl.
  replace (filter (fun _ : User.t => true) table) with table; [reflexivity|].
  symmetry. exact (rows_all table).
Qed.

(** Printing the objects that a query has just loaded prints its rows, in
    order. *)
Lemma for_each_print_user (rows pre : list User.t) (d : list User.t)
    (p : list Mutation) (out : list Output) :
  for_each (seq (List.length pre) (List.length rows)) print_user
           (mkWorld d (pre ++ rows) p out)
  = (mkWorld d (pre ++ rows) p (out ++ map Rec rows), inr tt).
Proof.
  revert pre out. induction rows as [|r rows IH]; intros pre out.
  - simpl. rewrite !app_nil_r. reflexivity.
  - simpl. unfold bind at 1. unfold print_user at 1, bind, get, print. simpl.
    rewrite nth_error_middle.
    specialize (IH (pre ++ [r]) (out ++ [Rec r])).
    rewrite <- !app_assoc in IH. simpl in IH.
    rewrite length_app, Nat.add_1_r in IH. cbn [durable objects pending stdout].
    rewrite IH. reflexivity.
Qed.

(** The shape shared by [get_all_users], [find_user_partial] and
    [list_users]: run a query, print a message if it is empty and its rows
    otherwise. *)
Lemma print_rows_spec (q : Select) (msg : string) (w : World) :
  with_session
    (users <- exec_all q ;;
     match users with
     | [] => print (Line msg)
     | _ => for_each users print_user
     end) w
  = (mkWorld (durable w) [] []
       (stdout w ++ match rows_of q (durable w) with
                    | [] => [Line msg]
                    | rows => map Rec rows
                    end),
     inr tt).
Proof.
  unfold with_session, bind, exec_all. simpl.
  destruct (rows_of q (durable w)) as [|r rows] eqn:E; [reflexivity|].
  pose proof (for_each_print_user (r :: rows) [] (durable w) [] (stdout w)) as H.
  simpl in H. simpl.
  match goal with
  | |- (let (_, _) := ?c in _) = _ => replace c with
      (mkWorld (durable w) (r :: rows) [] (stdout w ++ Rec r :: map Rec rows),
       @inr Exn unit tt) by (symmetry; exact H)
  end.
  reflexivity.
Qed.

(** ** What each command does *)

Lemma get_user_spec (username : string) (w : World) :
  get_user username w
  = (mkWorld (durable w) [] []
       (stdout w ++ [match find (fun u => String.eqb (User.username u) username)
                                (durable w) with
                     | Some row => Rec row
                     | None => Line (username ++ " not found!")
                     end]),
     inr tt).
Proof.
  unfold get_user, with_session, bind, exec_first. simpl.
  rewrite rows_where, <- filter_head_find.
  destruct (filter _ (durable w)); reflexivity.
Qed.

Lemma get_all_users_spec (w : World) :
  get_all_users w
  = (mkWorld (durable w) [] []
       (stdout w ++ match durable w with
                    | [] => [Line "No users found!"]
                    | rows => map Rec rows
                    end),
     inr tt).
Proof.
  unfold get_all_users. rewrite print_rows_spec, rows_all. reflexivity.
Qed.

Lemma find_user_partial_spec (partial : string) (w : World) :
  find_user_partial partial w
  = (mkWorld (durable w) [] []
       (stdout w
        ++ match filter (fun u => contains (User.username u) partial
                                  || contains (User.email u) partial) (durable w) with
           | [] => [Line ("No users found matching " ++ dquote ++ partial ++ dquote)]
           | rows => map Rec rows
           end),
     inr tt).
Proof.
  unfold find_user_partial. rewrite print_rows_spec, rows_where. reflexivity.
Qed.

Lemma list_users_spec (limit_ offset_ : Z) (w : World) :
  list_users limit_ offset_ w
  = if (limit_ <? 1)%Z then (w, inl (BadParameter "limit"))
    else if (offset_ <? 0)%Z then (w, inl (BadParameter "offset"))
    else (mkWorld (durable w) [] []
            (stdout w
             ++ match firstn (Z.to_nat limit_) (skipn (Z.to_nat offset_) (durable w)) with
                | [] => [Line "No users found!"]
                | rows => map Rec rows
                end),
          inr tt).
Proof.
  unfold list_users, typer_min, bind at 1.
  destruct (limit_ <? 1)%Z; [reflexivity|].
  unfold ret at 1, bind at 1.
  destruct (offset_ <? 0)%Z; [reflexivity|].
  unfold ret at 1. rewrite print_rows_spec, rows_page. reflexivity.
Qed.

Lemma id_eqb_eq (a b : option Z) : id_eqb a b = true <-> a = b.
Proof.
  destruct a as [x|], b as [y|]; simpl; split; intros H;
    try reflexivity; try discriminate.
  - apply Z.eqb_eq in H. now subst.
  - injection H as ->. apply Z.eqb_refl.
Qed.

Lemma id_eqb_refl (a : option Z) : id_eqb a a = true.
Proof. now apply id_eqb_eq. Qed.

Section Commands.

Variable fresh_id : list User.t -> Z.

Lemma initialize_spec (w : World) :
  initialize fresh_id w
  = (mkWorld [User.mk (Some (fresh_id [])) "bob" "bob@mail.com" "bobpass"] [] []
       (stdout w ++ [Line "Database Initialized"]),
     inr tt).
Proof.
  unfold initialize, with_session, bind, drop_all, create_db_and_tables, ret,
    User_, db_add, db_commit, db_refresh, print.
  simpl. rewrite Z.eqb_refl. reflexivity.
Qed.

Lemma create_user_spec (username email password : string) (w : World) :
  create_user fresh_id username email password w
  = if existsb (fun x => String.eqb (User.username x) username) (durable w)
    then (mkWorld (durable w) [] []
            (stdout w ++ [Orig UniqueUsername; Line "Username or email already taken!"]),
          inr tt)
    else if existsb (fun x => String.eqb (User.email x) email) (durable w)
    then (mkWorld (durable w) [] []
            (stdout w ++ [Orig UniqueEmail; Line "Username or email already taken!"]),
          inr tt)
    else
      let row := User.mk (Some (fresh_id (durable w))) username email password in
      (mkWorld (durable w ++ [row]) [] [] (stdout w ++ [Rec row]), inr tt).
Proof.
  unfold create_user, create_user_block, with_session,
    try_except_IntegrityError, bind, User_,
    db_add, db_commit, db_rollback, print_user, get, print.
  simpl.
  destruct (existsb _ (durable w)); simpl.
  - rewrite <- app_assoc. reflexivity.
  - destruct (existsb _ (durable w)); simpl.
    + rewrite <- app_assoc. reflexivity.
    + reflexivity.
Qed.

Lemma change_email_not_found (username new_email : string) (w : World) :
  find (fun u => String.eqb (User.username u) username) (durable w) = None ->
  change_email fresh_id username new_email w
  = (mkWorld (durable w) [] []
       (stdout w ++ [Line (username ++ " not found! Unable to update email.")]),
     inr tt).
Proof.
  intros H. unfold change_email, with_session, bind, exec_first. simpl.
  rewrite rows_where, (find_none_filter _ _ H). reflexivity.
Qed.

Lemma change_email_found (username new_email : string) (w : World)
    (row : User.t) (i : Z) :
  find (fun u => String.eqb (User.username u) username) (durable w) = Some row ->
  User.id row = Some i ->
  change_email fresh_id username new_email w
  = if existsb (fun x => negb (id_eqb (User.id x) (Some i))
                         && String.eqb (User.email x) new_email) (durable w)
    then (mkWorld (durable w) [] [] (stdout w), inl (IntegrityError UniqueEmail))
    else (mkWorld (map (fun x => if id_eqb (User.id x) (Some i)
                                 then User.with_email new_email x
                                 else x) (durable w)) [] []
            (stdout w ++ [Line ("Updated " ++ User.username row
                                ++ "'s email to " ++ new_email)]),
          inr tt).
Proof.
  intros Hfind Hid. rewrite <- filter_head_find in Hfind.
  unfold change_email, with_session, bind, exec_first. simpl.
  rewrite rows_where.
  destruct (filter _ (durable w)) as [|r rest]; [discriminate|].
  injection Hfind as ->.
  unfold set_email, db_add, db_commit, get, print. simpl.
  rewrite Hid. simpl. rewrite Hid. simpl.
  destruct (existsb _ (durable w)); reflexivity.
Qed.

Lemma delete_user_spec (username : string) (w : World) :
  delete_user fresh_id username w
  = match find (fun u => String.eqb (User.username u) username) (durable w) with
    | None =>
        (mkWorld (durable w) [] []
           (stdout w ++ [Line (username ++ " not found! Unable to delete user.")]),
         inr tt)
    | Some row =>
        (mkWorld (filter (fun x => negb (id_eqb (User.id x) (User.id row))) (durable w))
           [] []
           (stdout w ++ [Line ("User " ++ username ++ " deleted successfully.")]),
         inr tt)
    end.
Proof.
  unfold delete_user, with_session, bind, exec_first. simpl.
  rewrite rows_where, <- filter_head_find.
  destruct (filter _ (durable w)); reflexivity.
Qed.

End Commands.

(** ** Tables with unique keys *)

Section Keys.

Context {K : Type} (key : User.t -> K).

(** In a table whose [key] column has no duplicates, no row around a row
    shares its key. *)
Lemma unique_key_middle (pre post : list User.t) (x y : User.t) :
  NoDup (map key (pre ++ x :: post)) ->
  In y (pre ++ post) -> key y <> key x.
Proof.
  intros Hnd Hy Heq. rewrite map_app in Hnd. simpl in Hnd.
  apply NoDup_remove_2 in Hnd. apply Hnd.
  rewrite <- map_app, <- Heq. now apply in_map.
Qed.

Lemma unique_key_eq (table : list User.t) (x y : User.t) :
  NoDup (map key table) -> In x table -> In y table -> key x = key y -> x = y.
Proof.
  intros Hnd Hx Hy Heq.
  destruct (in_split _ _ Hx) as (pre & post & ->).
  apply in_app_or in Hy. destruct Hy as [Hy|[Hy|Hy]]; [|now symmetry|];
    exfalso; apply (unique_key_middle pre post x y Hnd); auto using in_or_app.
Qed.

End Keys.

Lemma find_middle {A : Type} (p : A -> bool) (pre post : list A) (x : A) :
  (forall y, In y pre -> p y = false) -> p x = true ->
  find p (pre ++ x :: post) = Some x.
Proof.
  intros Hpre Hx. induction pre as [|a pre IH]; simpl.
  - now rewrite Hx.
  - rewrite (Hpre a (or_introl eq_refl)). apply IH.
    intros y Hy. apply Hpre. now right.
Qed.

Lemma map_only_middle {A : Type} (p : A -> bool) (f : A -> A)
    (pre post : list A) (x : A) :
  (forall y, In y (pre ++ post) -> p y = false) -> p x = true ->
  map (fun y => if p y then f y else y) (pre ++ x :: post) = pre ++ f x :: post.
Proof.
  intros Hothers Hx. rewrite map_app. simpl. rewrite Hx. f_equal; [|f_equal].
  - rewrite <- (map_id pre) at 2. apply map_ext_in. intros y Hy.
    rewrite (Hothers y); [reflexivity|apply in_or_app; now left].
  - rewrite <- (map_id post) at 2. apply map_ext_in. intros y Hy.
    rewrite (Hothers y); [reflexivity|apply in_or_app; now right].
Qed.

Lemma existsb_column (col : User.t -> string) (k : string) (table : list User.t) :
  existsb (fun x => String.eqb (col x) k) table = true <-> In k (map col table).
Proof.
  rewrite existsb_exists, in_map_iff. split.
  - intros (x & Hx & E). apply String.eqb_eq in E. now exists x.
  - intros (x & E & Hx). exists x. split; [assumption|now apply String.eqb_eq].
Qed.

Lemma existsb_column_absent (col : User.t -> string) (k : string)
    (table : list User.t) :
  ~ In k (map col table) -> existsb (fun x => String.eqb (col x) k) table = false.
Proof.
  intros H. destruct (existsb _ table) eqn:E; [|reflexivity].
  apply existsb_column in E. contradiction.
Qed.

Lemma find_column_absent (col : User.t -> string) (k : string)
    (table : list User.t) :
  ~ In k (map col table) -> find (fun x => String.eqb (col x) k) table = None.
Proof.
  intros H. destruct (find _ table) as [x|] eqn:E; [|reflexivity].
  apply find_some in E as [Hx E]. apply String.eqb_eq in E.
  exfalso. apply H. rewrite <- E. now apply in_map.
Qed.

(** In a well-formed table the row of a username is the one that a lookup
    by that username finds, and it has a key. *)
Lemma wf_lookup (table : list User.t) (x : User.t) :
  wf_table table -> In x table ->
  exists pre post i,
    table = pre ++ x :: post
    /\ User.id x = Some i
    /\ (forall y, In y (pre ++ post) -> id_eqb (User.id y) (Some i) = false)
    /\ (forall y, In y (pre ++ post) ->
                  String.eqb (User.username y) (User.username x) = false)
    /\ find (fun u => String.eqb (User.username u) (User.username x)) table = Some x.
Proof.
  intros (Hid & Hids & Hnames & _) Hx.
  destruct (in_split _ _ Hx) as (pre & post & ->).
  rewrite Forall_forall in Hid. specialize (Hid x Hx).
  destruct (User.id x) as [i|] eqn:Ei; [|contradiction].
  assert (Hn : forall y, In y (pre ++ post) ->
                         String.eqb (User.username y) (User.username x) = false).
  { intros y Hy. apply String.eqb_neq.
    exact (unique_key_middle User.username pre post x y Hnames Hy). }
  exists pre, post, i. repeat split; try assumption.
  - intros y Hy. destruct (id_eqb (User.id y) (Some i)) eqn:E; [|reflexivity].
    apply id_eqb_eq in E. rewrite <- Ei in E.
    exfalso. exact (unique_key_middle User.id pre post x y Hids Hy E).
  - apply find_middle; [|apply String.eqb_refl].
    intros y Hy. apply Hn. apply in_or_app. now left.
Qed.

(** ** The invariant of the durable table *)

Lemma NoDup_snoc {A : Type} (l : list A) (a : A) :
  NoDup l -> ~ In a l -> NoDup (l ++ [a]).
Proof.
  intros Hl Ha. apply (NoDup_Add (Add_app a l [])).
  rewrite app_nil_r. now split.
Qed.

Lemma NoDup_map_filter {A K : Type} (key : A -> K) (p : A -> bool) (l : list A) :
  NoDup (map key l) -> NoDup (map key (filter p l)).
Proof.
  induction l as [|a l IH]; simpl; intros H; [constructor|].
  apply NoDup_cons_iff in H as [Ha Hl].
  destruct (p a); simpl; [|now apply IH].
  constructor; [|now apply IH].
  intros Hin. apply Ha. apply in_map_iff in Hin as (y & E & Hy).
  apply filter_In in Hy as [Hy _]. rewrite <- E. now apply in_map.
Qed.

Section Invariant.

Variable fresh_id : list User.t -> Z.

(** The store never hands out a key that a row of the table has. *)
Hypothesis fresh_id_new :
  forall table, ~ In (Some (fresh_id table)) (map User.id table).

Lemma wf_table_nil : wf_table [].
Proof. repeat split; constructor. Qed.

Lemma wf_table_insert (table : list User.t) (username email password : string) :
  wf_table table ->
  ~ In username (map User.username table) ->
  ~ In email (map User.email table) ->
  wf_table (table ++ [User.mk (Some (fresh_id table)) username email password]).
Proof.
  intros (Hid & Hids & Hnames & Hemails) Hu He.
  repeat split; rewrite ?map_app; simpl.
  - apply Forall_app. split; [assumption|]. constructor; [discriminate|constructor].
  - apply NoDup_snoc; [assumption|apply fresh_id_new].
  - now apply NoDup_snoc.
  - now apply NoDup_snoc.
Qed.

Lemma wf_table_update (pre post : list User.t) (x : User.t) (e : string) :
  wf_table (pre ++ x :: post) ->
  ~ In e (map User.email (pre ++ post)) ->
  wf_table (pre ++ User.with_email e x :: post).
Proof.
  intros (Hid & Hids & Hnames & Hemails) He.
  rewrite map_app in Hids, Hnames, Hemails. simpl in Hids, Hnames, Hemails.
  repeat split; rewrite ?map_app; simpl; try assumption.
  - apply Forall_app in Hid as [Hpre Hpost]. apply Forall_app. split; [assumption|].
    inversion Hpost; subst. now constructor.
  - apply NoDup_remove_1 in Hemails.
    apply (NoDup_Add (Add_app e (map User.email pre) (map User.email post))).
    split; [assumption|]. now rewrite <- map_app.
Qed.

Lemma wf_table_filter (p : User.t -> bool) (table : list User.t) :
  wf_table table -> wf_table (filter p table).
Proof.
  intros (Hid & Hids & Hnames & Hemails). repeat split.
  - apply Forall_forall. intros y Hy. apply filter_In in Hy as [Hy _].
    rewrite Forall_forall in Hid. now apply Hid.
  - now apply NoDup_map_filter.
  - now apply NoDup_map_filter.
  - now apply NoDup_map_filter.
Qed.

(** X17.  Every command leaves a well-formed durable table well-formed,
    and [initialize] produces one from any table. *)
Theorem wf_table_preserved (w : World) :
  wf_table (durable (fst (initialize fresh_id w)))
  /\ (wf_table (durable w) ->
      (forall username email password,
          wf_table (durable (fst (create_user fresh_id username email password w))))
      /\ (forall username new_email,
             wf_table (durable (fst (change_email fresh_id username new_email w))))
      /\ (forall username,
             wf_table (durable (fst (delete_user fresh_id username w))))
      /\ (forall username, wf_table (durable (fst (get_user username w))))
      /\ wf_table (durable (fst (get_all_users w)))
      /\ (forall partial, wf_table (durable (fst (find_user_partial partial w))))
      /\ (forall limit_ offset_,
             wf_table (durable (fst (list_users limit_ offset_ w))))).
Proof.
  split.
  { rewrite initialize_spec. simpl.
    apply (wf_table_insert [] "bob" "bob@mail.com" "bobpass"); auto using wf_table_nil. }
  intros Hwf. split; [|split; [|split; [|split; [|split; [|split]]]]].
  - intros username email password. rewrite create_user_spec.
    destruct (existsb (fun x => String.eqb (User.username x) username) (durable w))
      eqn:Eu; [exact Hwf|].
    destruct (existsb (fun x => String.eqb (User.email x) email) (durable w))
      eqn:Ee; [exact Hwf|].
    simpl. apply wf_table_insert; [exact Hwf| |].
    + intros H. apply existsb_column in H. congruence.
    + intros H. apply existsb_column in H. congruence.
  - intros username new_email.
    destruct (find (fun u => String.eqb (User.username u) username) (durable w))
      as [x|] eqn:Ef.
    + pose proof (find_some _ _ Ef) as [Hx Hu]. apply String.eqb_eq in Hu.
      destruct (wf_lookup _ x Hwf Hx) as (pre & post & i & Ht & Hi & Hids & _ & _).
      rewrite (change_email_found _ _ _ _ x i Ef Hi).
      destruct (existsb _ (durable w)) eqn:Ex; [exact Hwf|].
      cbn [fst durable]. rewrite Ht.
      rewrite map_only_middle; [|exact Hids|rewrite Hi; apply id_eqb_refl].
      apply wf_table_update; [now rewrite <- Ht|].
      intros Hin. apply in_map_iff in Hin as (y & Ey & Hy).
      assert (Hex : existsb (fun x0 => negb (id_eqb (User.id x0) (Some i))
                                       && String.eqb (User.email x0) new_email)
                      (durable w) = true).
      { apply existsb_exists. exists y. split.
        - rewrite Ht. apply in_app_or in Hy. apply in_or_app.
          destruct Hy; [now left|right; now right].
        - rewrite (Hids y Hy). simpl. now apply String.eqb_eq. }
      congruence.
    + rewrite (change_email_not_found _ _ _ _ Ef). exact Hwf.
  - intros username. rewrite delete_user_spec.
    destruct (find _ (durable w)); [|exact Hwf].
    simpl. now apply wf_table_filter.
  - intros username. now rewrite get_user_spec.
  - now rewrite get_all_users_spec.
  - intros partial. now rewrite find_user_partial_spec.
  - intros limit_ offset_. rewrite list_users_spec.
    destruct (limit_ <? 1)%Z; [exact Hwf|].
    destruct (offset_ <? 0)%Z; exact Hwf.
Qed.

End Invariant.

(** [next_rowid] never hands out a key of the table. *)
Lemma next_rowid_new (table : list User.t) :
  ~ In (Some (next_rowid table)) (map User.id table).
Proof.
  assert (H : forall i, In (Some i) (map User.id table) -> (i < next_rowid table)%Z).
  { unfold next_rowid. induction table as [|a t IH]; cbn [map In fold_right];
      [contradiction|].
    intros i [E|Hin].
    - rewrite E. lia.
    - specialize (IH i Hin). destruct (User.id a); lia. }
  intros Hin. specialize (H _ Hin). lia.
Qed.

(** ** Properties of the commands *)

Section CommandProperties.

Variable fresh_id : list User.t -> Z.

(** A taken username or email makes the commit of [create_user] raise
    [IntegrityError], which the command turns into two printed lines. *)
Lemma create_user_taken (username email password : string) (w : World) :
  In username (map User.username (durable w))
  \/ In email (map User.email (durable w)) ->
  exists c,
    (newuser <- User_ username email password ;;
     db_add newuser ;; db_commit fresh_id) (mkWorld (durable w) [] [] (stdout w))
    = (mkWorld (durable w) [User.new username email password] [Insert 0%nat] (stdout w),
       inl (IntegrityError c))
    /\ create_user fresh_id username email password w
       = (mkWorld (durable w) [] []
            (stdout w ++ [Orig c; Line "Username or email already taken!"]),
          inr tt).
Proof.
  intros H. rewrite create_user_spec.
  unfold bind, User_, db_add, db_commit. simpl.
  destruct (existsb (fun x => String.eqb (User.username x) username) (durable w)) eqn:Eu.
  - exists UniqueUsername. split; reflexivity.
  - destruct (existsb (fun x => String.eqb (User.email x) email) (durable w)) eqn:Ee.
    + exists UniqueEmail. split; reflexivity.
    + exfalso. destruct H as [H|H]; apply existsb_column in H; congruence.
Qed.

(** C1.  When the username or the email of [create_user] already occurs
    in a durable record, the commit raises a uniqueness violation with the
    durable table untouched and the insert still staged; the command
    catches it and rolls back, so that at the end of its block, inside the
    session, nothing is staged any more; it prints the store's error and
    "Username or email already taken!", returns normally, and the durable
    table is exactly the one before the call; in a table with unique
    usernames and emails the taken username (email) is then still carried
    by exactly one record. *)
Theorem create_user_duplicate_rejected
    (username email password : string) (w : World) :
  In username (map User.username (durable w))
  \/ In email (map User.email (durable w)) ->
  exists c,
    (newuser <- User_ username email password ;;
     db_add newuser ;; db_commit fresh_id) (mkWorld (durable w) [] [] (stdout w))
    = (mkWorld (durable w) [User.new username email password] [Insert 0%nat] (stdout w),
       inl (IntegrityError c))
    /\ create_user_block fresh_id username email password
         (mkWorld (durable w) [] [] (stdout w))
       = (mkWorld (durable w) [User.new username email password] []
            (stdout w ++ [Orig c; Line "Username or email already taken!"]),
          inr tt)
    /\ create_user fresh_id username email password w
       = (mkWorld (durable w) [] []
            (stdout w ++ [Orig c; Line "Username or email already taken!"]),
          inr tt)
    /\ (wf_table (durable w) ->
        let after := durable (fst (create_user fresh_id username email password w)) in
        (In username (map User.username (durable w)) ->
         count_occ string_dec (map User.username after) username = 1%nat)
        /\ (In email (map User.email (durable w)) ->
            count_occ string_dec (map User.email after) email = 1%nat)).
Proof.
  intros H.
  assert (Hcount : forall r,
             create_user fresh_id username email password w = r ->
             durable (fst r) = durable w ->
             wf_table (durable w) ->
             let after := durable (fst (create_user fresh_id username email password w)) in
             (In username (map User.username (durable w)) ->
              count_occ string_dec (map User.username after) username = 1%nat)
             /\ (In email (map User.email (durable w)) ->
                 count_occ string_dec (map User.email after) email = 1%nat)).
  { intros r Hr Hd (_ & _ & Hnames & Hemails). cbv zeta. rewrite Hr, Hd.
    split; intros Hin; now apply NoDup_count_occ'. }
  destruct (existsb (fun x => String.eqb (User.username x) username) (durable w)) eqn:Eu;
    [exists UniqueUsername
    |destruct (existsb (fun x => String.eqb (User.email x) email) (durable w)) eqn:Ee;
     [exists UniqueEmail
     |exfalso; destruct H as [H|H]; apply existsb_column in H; congruence]].
  all: split;
    [unfold bind, User_, db_add, db_commit; simpl; rewrite Eu, ?Ee; reflexivity|].
  all: split;
    [unfold create_user_block, try_except_IntegrityError, bind, User_, db_add,
       db_commit, db_rollback, print; simpl; rewrite Eu, ?Ee; simpl;
     rewrite <- app_assoc; reflexivity|].
  all: split; [rewrite create_user_spec, Eu, ?Ee; reflexivity|].
  all: apply (Hcount _ eq_refl); rewrite create_user_spec, Eu, ?Ee; reflexivity.
Qed.

(** C2.  When [change_email] is given an existing username and an email
    that another record already has, the [IntegrityError] raised by the
    commit leaves the command uncaught (nothing is printed, the durable
    table is unchanged), whereas [create_user] with the same taken email
    returns normally after printing its message. *)
Theorem change_email_violation_propagates
    (username new_email : string) (w : World) (x y : User.t) :
  wf_table (durable w) ->
  In x (durable w) -> User.username x = username ->
  In y (durable w) -> y <> x -> User.email y = new_email ->
  change_email fresh_id username new_email w
  = (mkWorld (durable w) [] [] (stdout w), inl (IntegrityError UniqueEmail))
  /\ forall username' password',
       exists c,
         create_user fresh_id username' new_email password' w
         = (mkWorld (durable w) [] []
              (stdout w ++ [Orig c; Line "Username or email already taken!"]),
            inr tt).
Proof.
  intros Hwf Hx Hu Hy Hne He. split.
  - destruct (wf_lookup _ x Hwf Hx) as (pre & post & i & Ht & Hi & Hids & _ & Hfind).
    rewrite Hu in Hfind. rewrite (change_email_found _ _ _ _ x i Hfind Hi).
    replace (existsb _ (durable w)) with true; [reflexivity|].
    symmetry. apply existsb_exists. exists y. split; [assumption|].
    apply andb_true_iff. split; [|now apply String.eqb_eq].
    apply negb_true_iff. apply Hids.
    rewrite Ht in Hy. apply in_app_or in Hy.
    destruct Hy as [Hy|[Hy|Hy]]; [apply in_or_app; now left| |apply in_or_app; now right].
    exfalso. apply Hne. now symmetry.
  - intros username' password'.
    destruct (create_user_taken username' new_email password' w) as (c & _ & Hr).
    + right. rewrite <- He. now apply in_map.
    + now exists c.
Qed.

(** C3.  [find_user_partial] does not print exactly the records that
    contain the search text: on the table that [initialize] leaves, the
    search text [b_b] makes it print bob's record, although neither bob's
    username nor bob's email contains [b_b]; the underscore was read as
    the one-character wildcard of [LIKE]. *)
Theorem find_user_partial_wildcard :
  find_user_partial "b_b" (fresh_process [bob_row])
  = (mkWorld [bob_row] [] [] [Rec bob_row], inr tt)
  /\ is_substring "b_b" (User.username bob_row) = false
  /\ is_substring "b_b" (User.email bob_row) = false.
Proof. repeat split; reflexivity. Qed.

(** On a search text without [%] and [_], [find_user_partial] prints
    exactly the records whose username or email contains the text, in
    store order, and its message when there is none. *)
Lemma find_user_partial_plain (partial : string) (w : World) :
  wildcard_free partial = true ->
  find_user_partial partial w
  = (mkWorld (durable w) [] []
       (stdout w
        ++ match filter (fun u => is_substring partial (User.username u)
                                  || is_substring partial (User.email u))
                        (durable w) with
           | [] => [Line ("No users found matching " ++ dquote ++ partial ++ dquote)]
           | rows => map Rec rows
           end),
     inr tt).
Proof.
  intros Hp. rewrite find_user_partial_spec.
  rewrite (filter_ext _ (fun u => is_substring partial (User.username u)
                                  || is_substring partial (User.email u))).
  - reflexivity.
  - intros u. now rewrite !(contains_plain partial _ Hp).
Qed.

(** The comparison is case-sensitive: upper-case [BOB] does not find bob. *)
Example find_user_partial_case :
  find_user_partial "BOB" (fresh_process [bob_row])
  = (mkWorld [bob_row] [] []
       [Line ("No users found matching " ++ dquote ++ "BOB" ++ dquote)],
     inr tt).
Proof. reflexivity. Qed.

(** C4.  [list_users] rejects a limit below 1 or an offset below 0 before
    it touches the store; otherwise it prints the rows of the table in
    store order after skipping [offset] of them, at most [limit] of them
    (or "No users found!" when that page is empty).  On five rows, limit 2
    and offset 0 print the first two, limit 2 and offset 4 print the
    fifth alone. *)
Theorem list_users_page (limit_ offset_ : Z) (w : World) :
  list_users limit_ offset_ w
  = (if (limit_ <? 1)%Z then (w, inl (BadParameter "limit"))
     else if (offset_ <? 0)%Z then (w, inl (BadParameter "offset"))
     else (mkWorld (durable w) [] []
             (stdout w
              ++ match firstn (Z.to_nat limit_)
                              (skipn (Z.to_nat offset_) (durable w)) with
                 | [] => [Line "No users found!"]
                 | rows => map Rec rows
                 end),
           inr tt))
  /\ forall u1 u2 u3 u4 u5 : User.t,
       list_users 2 0 (fresh_process [u1; u2; u3; u4; u5])
       = (mkWorld [u1; u2; u3; u4; u5] [] [] [Rec u1; Rec u2], inr tt)
       /\ list_users 2 4 (fresh_process [u1; u2; u3; u4; u5])
          = (mkWorld [u1; u2; u3; u4; u5] [] [] [Rec u5], inr tt).
Proof.
  split; [apply list_users_spec|].
  intros u1 u2 u3 u4 u5. rewrite !list_users_spec. split; reflexivity.
Qed.

(** C5.  Whatever the table held, [initialize] leaves exactly one row,
    bob's, and returns normally; run again on its own result it leaves
    the same table: one bob, never two. *)
Theorem initialize_idempotent (w : World) :
  let bob := User.mk (Some (fresh_id [])) "bob" "bob@mail.com" "bobpass" in
  let once := initialize fresh_id w in
  let twice := initialize fresh_id (fst once) in
  durable (fst once) = [bob]
  /\ snd once = inr tt
  /\ durable (fst twice) = [bob]
  /\ snd twice = inr tt
  /\ durable (fst twice) = durable (fst once)
  /\ count_occ string_dec (map User.username (durable (fst twice))) "bob" = 1%nat.
Proof.
  cbv zeta. rewrite !initialize_spec. simpl. repeat split; reflexivity.
Qed.

(** C6.  When neither the username nor the email is in the table,
    [create_user] appends a row with exactly the given username, email and
    password (the password as given) and a key from the store, and a
    following [get_user] with that username prints that row. *)
Theorem create_user_then_get_user
    (username email password : string) (w : World) :
  ~ In username (map User.username (durable w)) ->
  ~ In email (map User.email (durable w)) ->
  let row := User.mk (Some (fresh_id (durable w))) username email password in
  let created := create_user fresh_id username email password w in
  created = (mkWorld (durable w ++ [row]) [] [] (stdout w ++ [Rec row]), inr tt)
  /\ get_user username (fst created)
     = (mkWorld (durable w ++ [row]) [] [] ((stdout w ++ [Rec row]) ++ [Rec row]),
        inr tt)
  /\ User.username row = username
  /\ User.email row = email
  /\ User.password row = password.
Proof.
  intros Hu He. cbv zeta. rewrite create_user_spec.
  rewrite (existsb_column_absent User.username _ _ Hu).
  rewrite (existsb_column_absent User.email _ _ He).
  cbv zeta. split; [reflexivity|]. split; [|repeat split].
  rewrite get_user_spec. cbn [fst durable stdout].
  rewrite find_middle; [reflexivity| |apply String.eqb_refl].
  intros y Hy. apply String.eqb_neq. intros E. apply Hu.
  rewrite <- E. now apply in_map.
Qed.

(** C7.  For a username that is not in the table, [get_user] prints
    "<username> not found!" and [delete_user] prints "<username> not
    found! Unable to delete user."; both return normally and leave the
    durable table as it was. *)
Theorem absent_user_not_found (username : string) (w : World) :
  ~ In username (map User.username (durable w)) ->
  get_user username w
  = (mkWorld (durable w) [] [] (stdout w ++ [Line (username ++ " not found!")]),
     inr tt)
  /\ delete_user fresh_id username w
     = (mkWorld (durable w) [] []
          (stdout w ++ [Line (username ++ " not found! Unable to delete user.")]),
        inr tt).
Proof.
  intros H. rewrite get_user_spec, delete_user_spec.
  rewrite (find_column_absent User.username _ _ H). split; reflexivity.
Qed.

(** An accepted [change_email]: the row of the username gets the new
    email in place, nothing else moves, and the confirmation names the
    username and the new email. *)
Lemma change_email_accepted (username new_email : string) (w : World) (x : User.t) :
  wf_table (durable w) ->
  In x (durable w) -> User.username x = username ->
  (forall y, In y (durable w) -> User.email y = new_email -> y = x) ->
  exists pre post,
    durable w = pre ++ x :: post
    /\ (forall y, In y pre -> String.eqb (User.username y) username = false)
    /\ change_email fresh_id username new_email w
       = (mkWorld (pre ++ User.with_email new_email x :: post) [] []
            (stdout w ++ [Line ("Updated " ++ username ++ "'s email to " ++ new_email)]),
          inr tt).
Proof.
  intros Hwf Hx Hu Hfree.
  destruct (wf_lookup _ x Hwf Hx) as (pre & post & i & Ht & Hi & Hids & Hnames & Hfind).
  rewrite Hu in Hfind, Hnames. exists pre, post. split; [exact Ht|]. split.
  - intros y Hy. apply Hnames. apply in_or_app. now left.
  - rewrite (change_email_found _ _ _ _ x i Hfind Hi), Hu.
    replace (existsb _ (durable w)) with false.
    + rewrite Ht at 1. rewrite map_only_middle; [reflexivity|exact Hids|].
      rewrite Hi. apply id_eqb_refl.
    + symmetry. destruct (existsb _ (durable w)) eqn:E; [|reflexivity].
      apply existsb_exists in E. destruct E as (y & Hy & E).
      apply andb_true_iff in E as [Eid Eem].
      apply String.eqb_eq in Eem. rewrite (Hfree y Hy Eem), Hi, id_eqb_refl in Eid.
      discriminate.
Qed.

(** C8.  For a username in the table and a new email that no other record
    has, [change_email] replaces the email of that record in place: the
    record keeps its id, username and password, the records before and
    after it are the same, and a following [get_user] prints the record
    with the new email. *)
Theorem change_email_updates_one
    (username new_email : string) (w : World) (x : User.t) :
  wf_table (durable w) ->
  In x (durable w) -> User.username x = username ->
  (forall y, In y (durable w) -> User.email y = new_email -> y = x) ->
  exists pre post x',
    durable w = pre ++ x :: post
    /\ change_email fresh_id username new_email w
       = (mkWorld (pre ++ x' :: post) [] []
            (stdout w ++ [Line ("Updated " ++ username ++ "'s email to " ++ new_email)]),
          inr tt)
    /\ User.email x' = new_email
    /\ User.id x' = User.id x
    /\ User.username x' = User.username x
    /\ User.password x' = User.password x
    /\ get_user username (fst (change_email fresh_id username new_email w))
       = (mkWorld (pre ++ x' :: post) [] []
            ((stdout w ++ [Line ("Updated " ++ username ++ "'s email to " ++ new_email)])
             ++ [Rec x']),
          inr tt).
Proof.
  intros Hwf Hx Hu Hfree.
  destruct (change_email_accepted _ _ _ _ Hwf Hx Hu Hfree) as (pre & post & Ht & Hpre & Hr).
  exists pre, post, (User.with_email new_email x).
  split; [exact Ht|]. split; [exact Hr|]. repeat split.
  rewrite Hr, get_user_spec. cbn [fst durable stdout].
  rewrite find_middle; [reflexivity|exact Hpre|].
  simpl. rewrite Hu. apply String.eqb_refl.
Qed.

(** C9, as the code has it.  The confirmation that [change_email] prints
    on success is "Updated <username>'s email to <new_email>": it carries
    the username and the new email. *)
Theorem change_email_confirmation
    (username new_email : string) (w : World) (x : User.t) :
  wf_table (durable w) ->
  In x (durable w) -> User.username x = username ->
  (forall y, In y (durable w) -> User.email y = new_email -> y = x) ->
  exists w' line,
    change_email fresh_id username new_email w = (w', inr tt)
    /\ stdout w' = stdout w ++ [Line line]
    /\ line = ("Updated " ++ username ++ "'s email to " ++ new_email)%string
    /\ is_substring username line = true
    /\ is_substring new_email line = true.
Proof.
  intros Hwf Hx Hu Hfree.
  destruct (change_email_accepted _ _ _ _ Hwf Hx Hu Hfree) as (pre & post & _ & _ & Hr).
  eexists. eexists. split; [exact Hr|]. split; [reflexivity|]. split; [reflexivity|].
  split.
  - apply (is_substring_app "Updated " username).
  - do 3 apply is_substring_skip. apply is_substring_here, prefix_refl.
Qed.

(** C10.  The four reading commands leave the durable table as it was,
    whatever the table and the arguments, whether they find something or
    not; started as a fresh process they also leave nothing staged. *)
Theorem read_only_commands :
  (forall (w : World) (username partial : string) (limit_ offset_ : Z),
      durable (fst (get_user username w)) = durable w
      /\ durable (fst (get_all_users w)) = durable w
      /\ durable (fst (find_user_partial partial w)) = durable w
      /\ durable (fst (list_users limit_ offset_ w)) = durable w)
  /\ (forall (table : list User.t) (username partial : string) (limit_ offset_ : Z),
         pending (fst (get_user username (fresh_process table))) = []
         /\ pending (fst (get_all_users (fresh_process table))) = []
         /\ pending (fst (find_user_partial partial (fresh_process table))) = []
         /\ pending (fst (list_users limit_ offset_ (fresh_process table))) = []).
Proof.
  split; intros; rewrite get_user_spec, get_all_users_spec,
    find_user_partial_spec, list_users_spec;
    (repeat split; try reflexivity);
    destruct (limit_ <? 1)%Z; try reflexivity;
    destruct (offset_ <? 0)%Z; reflexivity.
Qed.

End CommandProperties.

(** ** The properties on concrete tables *)

Ltac concrete_wf :=
  unfold wf_table; simpl;
  repeat match goal with
         | |- _ /\ _ => split
         | |- Forall _ _ => constructor
         | |- NoDup _ => constructor
         | |- _ <> _ => discriminate
         | |- ~ _ => simpl; intuition discriminate
         end.

(** C1 on bob's table: a second "bob" is turned away. *)
Lemma create_user_duplicate_rejected_witness :
  (In "bob" (map User.username (durable (fresh_process [bob_row])))
   \/ In "rob@mail.com" (map User.email (durable (fresh_process [bob_row]))))
  /\ exists c,
       create_user next_rowid "bob" "rob@mail.com" "robpass" (fresh_process [bob_row])
       = (mkWorld [bob_row] [] [] [Orig c; Line "Username or email already taken!"],
          inr tt).
Proof.
  assert (H : In "bob" (map User.username (durable (fresh_process [bob_row])))
              \/ In "rob@mail.com" (map User.email (durable (fresh_process [bob_row]))))
    by (left; simpl; left; reflexivity).
  split; [exact H|].
  destruct (create_user_duplicate_rejected next_rowid "bob" "rob@mail.com" "robpass"
              (fresh_process [bob_row]) H) as (c & _ & _ & Hr & _).
  exists c. exact Hr.
Defined.

(** C2 on the table of bob and alice: alice asks for bob's email. *)
Lemma change_email_violation_propagates_witness :
  (wf_table [bob_row; alice_row]
   /\ In alice_row [bob_row; alice_row] /\ User.username alice_row = "alice"
   /\ In bob_row [bob_row; alice_row] /\ bob_row <> alice_row
   /\ User.email bob_row = "bob@mail.com")
  /\ change_email next_rowid "alice" "bob@mail.com" (fresh_process [bob_row; alice_row])
     = (mkWorld [bob_row; alice_row] [] [] [], inl (IntegrityError UniqueEmail)).
Proof.
  assert (Hwf : wf_table [bob_row; alice_row]) by concrete_wf.
  assert (Hne : bob_row <> alice_row) by discriminate.
  split.
  - split; [exact Hwf|]. repeat split; simpl; auto.
  - apply (change_email_violation_propagates next_rowid "alice" "bob@mail.com"
             (fresh_process [bob_row; alice_row]) alice_row bob_row);
      simpl; auto.
Defined.

(** C6 on bob's table: alice is created and read back. *)
Lemma create_user_then_get_user_witness :
  (~ In "alice" (map User.username [bob_row])
   /\ ~ In "alice@mail.com" (map User.email [bob_row]))
  /\ get_user "alice"
       (fst (create_user next_rowid "alice" "alice@mail.com" "alicepass"
               (fresh_process [bob_row])))
     = (mkWorld [bob_row; alice_row] [] [] [Rec alice_row; Rec alice_row], inr tt).
Proof.
  assert (Hu : ~ In "alice" (map User.username (durable (fresh_process [bob_row]))))
    by (simpl; intuition discriminate).
  assert (He : ~ In "alice@mail.com" (map User.email (durable (fresh_process [bob_row]))))
    by (simpl; intuition discriminate).
  split; [split; assumption|].
  exact (proj1 (proj2 (create_user_then_get_user next_rowid "alice" "alice@mail.com"
                         "alicepass" (fresh_process [bob_row]) Hu He))).
Defined.

(** C7 on bob's table: nobody is called "zed". *)
Lemma absent_user_not_found_witness :
  ~ In "zed" (map User.username [bob_row])
  /\ get_user "zed" (fresh_process [bob_row])
     = (mkWorld [bob_row] [] [] [Line "zed not found!"], inr tt)
  /\ delete_user next_rowid "zed" (fresh_process [bob_row])
     = (mkWorld [bob_row] [] [] [Line "zed not found! Unable to delete user."], inr tt).
Proof.
  assert (H : ~ In "zed" (map User.username (durable (fresh_process [bob_row]))))
    by (simpl; intuition discriminate).
  split; [exact H|].
  exact (absent_user_not_found next_rowid "zed" (fresh_process [bob_row]) H).
Defined.

(** C8 on the table of bob and alice: alice moves to a new address. *)
Lemma change_email_updates_one_witness :
  (wf_table [bob_row; alice_row]
   /\ In alice_row [bob_row; alice_row] /\ User.username alice_row = "alice"
   /\ forall y, In y [bob_row; alice_row] -> User.email y = "al@mail.com" -> y = alice_row)
  /\ exists pre post x',
       [bob_row; alice_row] = pre ++ alice_row :: post
       /\ change_email next_rowid "alice" "al@mail.com" (fresh_process [bob_row; alice_row])
          = (mkWorld (pre ++ x' :: post) [] []
               [Line "Updated alice's email to al@mail.com"], inr tt)
       /\ User.email x' = "al@mail.com".
Proof.
  assert (Hwf : wf_table [bob_row; alice_row]) by concrete_wf.
  assert (Hfree : forall y, In y [bob_row; alice_row] ->
                            User.email y = "al@mail.com" -> y = alice_row).
  { intros y [<-|[<-|[]]] E; [discriminate E|reflexivity]. }
  split.
  - split; [exact Hwf|]. split; [simpl; auto|]. split; [reflexivity|exact Hfree].
  - destruct (change_email_updates_one next_rowid "alice" "al@mail.com"
                (fresh_process [bob_row; alice_row]) alice_row)
      as (pre & post & x' & Ht & Hr & He & _); simpl; auto.
    exists pre, post, x'. repeat split; assumption.
Defined.

(** C9, as the code has it, on bob's table. *)
Lemma change_email_confirmation_witness :
  (wf_table [bob_row]
   /\ In bob_row [bob_row] /\ User.username bob_row = "bob"
   /\ forall y, In y [bob_row] -> User.email y = "rob@mail.com" -> y = bob_row)
  /\ exists w' line,
       change_email next_rowid "bob" "rob@mail.com" (fresh_process [bob_row]) = (w', inr tt)
       /\ stdout w' = [Line line]
       /\ line = "Updated bob's email to rob@mail.com"
       /\ is_substring "bob" line = true
       /\ is_substring "rob@mail.com" line = true.
Proof.
  assert (Hwf : wf_table [bob_row]) by concrete_wf.
  assert (Hfree : forall y, In y [bob_row] ->
                            User.email y = "rob@mail.com" -> y = bob_row).
  { intros y [<-|[]] _. reflexivity. }
  split.
  - split; [exact Hwf|]. split; [simpl; auto|]. split; [reflexivity|exact Hfree].
  - exact (change_email_confirmation next_rowid "bob" "rob@mail.com"
             (fresh_process [bob_row]) bob_row Hwf (or_introl eq_refl) eq_refl Hfree).
Defined.

(** C9 with the old email in the confirmation does not hold: bob's email is
    changed with success, and the one line printed, the confirmation, does
    not contain the old email. *)
Lemma change_email_confirmation_lacks_old_email :
  exists line,
    change_email next_rowid "bob" "rob@mail.com" (fresh_process [bob_row])
    = (mkWorld [User.with_email "rob@mail.com" bob_row] [] [] [Line line], inr tt)
    /\ is_substring (User.email bob_row) line = false.
Proof.
  exists "Updated bob's email to rob@mail.com". split; reflexivity.
Qed.

(** * Further properties of the commands *)

Lemma filter_keep_all {A : Type} (p : A -> bool) (l : list A) :
  (forall y, In y l -> p y = true) -> filter p l = l.
Proof.
  intros H. induction l as [|a l IH]; simpl; [reflexivity|].
  rewrite (H a (or_introl eq_refl)). f_equal. apply IH.
  intros y Hy. apply H. now right.
Qed.

Lemma filter_only_middle {A : Type} (p : A -> bool) (pre post : list A) (x : A) :
  (forall y, In y (pre ++ post) -> p y = true) -> p x = false ->
  filter p (pre ++ x :: post) = pre ++ post.
Proof.
  intros Hothers Hx. rewrite filter_app. simpl. rewrite Hx.
  rewrite !filter_keep_all; [reflexivity| |];
    intros y Hy; apply Hothers, in_or_app; [now right|now left].
Qed.

Lemma with_email_same (x : User.t) : User.with_email (User.email x) x = x.
Proof. destruct x; reflexivity. Qed.

Lemma with_email_twice (e e' : string) (x : User.t) :
  User.with_email e' (User.with_email e x) = User.with_email e' x.
Proof. reflexivity. Qed.

Section Lifecycle.

Variable fresh_id : list User.t -> Z.

(** [change_email] on a table given with the row of the username in its
    place: when no other row has the new email, the row gets it. *)
Lemma change_email_at (username new_email : string) (w : World)
    (pre post : list User.t) (x : User.t) (i : Z) :
  durable w = pre ++ x :: post ->
  User.username x = username -> User.id x = Some i ->
  (forall y, In y pre -> String.eqb (User.username y) username = false) ->
  (forall y, In y (pre ++ post) -> id_eqb (User.id y) (Some i) = false) ->
  ~ In new_email (map User.email (pre ++ post)) ->
  change_email fresh_id username new_email w
  = (mkWorld (pre ++ User.with_email new_email x :: post) [] []
       (stdout w ++ [Line ("Updated " ++ username ++ "'s email to " ++ new_email)]),
     inr tt).
Proof.
  intros Ht Hu Hi Hpre Hids Hfree.
  assert (Hfind : find (fun u => String.eqb (User.username u) username) (durable w)
                  = Some x).
  { rewrite Ht. apply find_middle; [exact Hpre|]. rewrite Hu. apply String.eqb_refl. }
  rewrite (change_email_found _ _ _ _ x i Hfind Hi), Hu.
  replace (existsb _ (durable w)) with false.
  - rewrite Ht at 1. rewrite map_only_middle; [reflexivity|exact Hids|].
    rewrite Hi. apply id_eqb_refl.
  - symmetry. destruct (existsb _ (durable w)) eqn:E; [|reflexivity].
    apply existsb_exists in E. destruct E as (y & Hy & E).
    apply andb_true_iff in E as [Eid Eem]. apply String.eqb_eq in Eem.
    rewrite Ht in Hy. apply in_app_or in Hy. destruct Hy as [Hy|[Hy|Hy]].
    + exfalso. apply Hfree. rewrite <- Eem. apply in_map, in_or_app. now left.
    + subst y. rewrite Hi, id_eqb_refl in Eid. discriminate.
    + exfalso. apply Hfree. rewrite <- Eem. apply in_map, in_or_app. now right.
Qed.

(** A found [delete_user]: the row of the username goes, the rows around
    it stay, and neither its username nor its email remains in the table. *)
Lemma delete_user_found (username : string) (w : World) (x : User.t) :
  wf_table (durable w) ->
  In x (durable w) -> User.username x = username ->
  exists pre post,
    durable w = pre ++ x :: post
    /\ delete_user fresh_id username w
       = (mkWorld (pre ++ post) [] []
            (stdout w ++ [Line ("User " ++ username ++ " deleted successfully.")]),
          inr tt)
    /\ ~ In username (map User.username (pre ++ post))
    /\ ~ In (User.email x) (map User.email (pre ++ post)).
Proof.
  intros Hwf Hx Hu.
  destruct (wf_lookup _ x Hwf Hx) as (pre & post & i & Ht & Hi & Hids & Hnames & Hfind).
  rewrite Hu in Hfind, Hnames.
  exists pre, post. split; [exact Ht|]. split; [|split].
  - rewrite delete_user_spec, Hfind. rewrite Ht at 1.
    rewrite filter_only_middle; [reflexivity| |].
    + intros y Hy. rewrite Hi, (Hids y Hy). reflexivity.
    + rewrite id_eqb_refl. reflexivity.
  - intros Hin. apply in_map_iff in Hin as (y & E & Hy).
    specialize (Hnames y Hy). apply String.eqb_neq in Hnames. contradiction.
  - intros Hin. apply in_map_iff in Hin as (y & E & Hy).
    destruct Hwf as (_ & _ & _ & Hemails). rewrite Ht in Hemails.
    exact (unique_key_middle User.email pre post x y Hemails Hy E).
Qed.

(** X1.  [delete_user] on a username of a well-formed table removes that
    one row and keeps the others in their order, prints its confirmation
    and returns normally; afterwards the username is gone: [get_user] and a
    second [delete_user] both report it as not found. *)
Theorem delete_user_removes_one (username : string) (w : World) (x : User.t) :
  wf_table (durable w) ->
  In x (durable w) -> User.username x = username ->
  exists pre post,
    durable w = pre ++ x :: post
    /\ delete_user fresh_id username w
       = (mkWorld (pre ++ post) [] []
            (stdout w ++ [Line ("User " ++ username ++ " deleted successfully.")]),
          inr tt)
    /\ ~ In username (map User.username (pre ++ post))
    /\ (forall w', durable w' = pre ++ post ->
          get_user username w'
          = (mkWorld (pre ++ post) [] []
               (stdout w' ++ [Line (username ++ " not found!")]), inr tt)
          /\ delete_user fresh_id username w'
             = (mkWorld (pre ++ post) [] []
                  (stdout w' ++ [Line (username ++ " not found! Unable to delete user.")]),
                inr tt)).
Proof.
  intros Hwf Hx Hu.
  destruct (delete_user_found username w x Hwf Hx Hu)
    as (pre & post & Ht & Hdel & Habs & _).
  exists pre, post. split; [exact Ht|]. split; [exact Hdel|]. split; [exact Habs|].
  intros w' Hw'. rewrite get_user_spec, delete_user_spec, Hw'.
  rewrite (find_column_absent User.username _ _ Habs). split; reflexivity.
Qed.

(** X2.  [create_user] followed by [delete_user] of the same username gives
    the durable table back as it was, when username and email were free and
    the store's new key is not one of the table. *)
Theorem create_then_delete_restores
    (username email password : string) (w : World) :
  ~ In username (map User.username (durable w)) ->
  ~ In email (map User.email (durable w)) ->
  ~ In (Some (fresh_id (durable w))) (map User.id (durable w)) ->
  let created := fst (create_user fresh_id username email password w) in
  durable created
  = durable w ++ [User.mk (Some (fresh_id (durable w))) username email password]
  /\ delete_user fresh_id username created
     = (mkWorld (durable w) [] []
          (stdout created ++ [Line ("User " ++ username ++ " deleted successfully.")]),
        inr tt).
Proof.
  intros Hu He Hnew. cbv zeta. rewrite create_user_spec.
  rewrite (existsb_column_absent User.username _ _ Hu).
  rewrite (existsb_column_absent User.email _ _ He).
  cbv zeta. cbn [fst durable stdout]. split; [reflexivity|].
  rewrite delete_user_spec. cbn [durable stdout].
  rewrite find_middle; [| |apply String.eqb_refl].
  - cbn [User.id]. rewrite filter_only_middle; [now rewrite app_nil_r| |].
    + rewrite app_nil_r. intros y Hy.
      destruct (id_eqb (User.id y) (Some (fresh_id (durable w)))) eqn:E; [|reflexivity].
      apply id_eqb_eq in E. exfalso. apply Hnew. rewrite <- E. now apply in_map.
    + rewrite id_eqb_refl. reflexivity.
  - intros y Hy. apply String.eqb_neq. intros E. apply Hu.
    rewrite <- E. now apply in_map.
Qed.

(** X3.  [delete_user] frees the username and the email of the row it
    removes: on a well-formed table, a [create_user] with the same username
    and email right after the deletion is accepted and appends its row. *)
Theorem delete_then_create_again
    (username password : string) (w : World) (x : User.t) :
  wf_table (durable w) ->
  In x (durable w) -> User.username x = username ->
  exists pre post,
    durable w = pre ++ x :: post
    /\ let deleted := fst (delete_user fresh_id username w) in
       let row := User.mk (Some (fresh_id (pre ++ post))) username (User.email x) password in
       create_user fresh_id username (User.email x) password deleted
       = (mkWorld ((pre ++ post) ++ [row]) [] [] (stdout deleted ++ [Rec row]), inr tt).
Proof.
  intros Hwf Hx Hu.
  destruct (delete_user_found username w x Hwf Hx Hu)
    as (pre & post & Ht & Hdel & Hun & Hem).
  exists pre, post. split; [exact Ht|]. cbv zeta. rewrite Hdel. cbn [fst].
  rewrite create_user_spec. cbn [durable stdout].
  rewrite (existsb_column_absent User.username _ _ Hun).
  rewrite (existsb_column_absent User.email _ _ Hem). reflexivity.
Qed.

End Lifecycle.

Section Composition.

Variable fresh_id : list User.t -> Z.

(** What [wf_lookup] gives, in the form [change_email_at] takes. *)
Lemma wf_row_in_place (table : list User.t) (x : User.t) :
  wf_table table -> In x table ->
  exists pre post i,
    table = pre ++ x :: post
    /\ User.id x = Some i
    /\ (forall y, In y pre ->
                  String.eqb (User.username y) (User.username x) = false)
    /\ (forall y, In y (pre ++ post) -> id_eqb (User.id y) (Some i) = false)
    /\ ~ In (User.email x) (map User.email (pre ++ post)).
Proof.
  intros Hwf Hx.
  destruct (wf_lookup _ x Hwf Hx) as (pre & post & i & Ht & Hi & Hids & Hnames & _).
  exists pre, post, i. repeat split; try assumption.
  - intros y Hy. apply Hnames, in_or_app. now left.
  - intros Hin. apply in_map_iff in Hin as (y & E & Hy).
    destruct Hwf as (_ & _ & _ & Hemails). rewrite Ht in Hemails.
    exact (unique_key_middle User.email pre post x y Hemails Hy E).
Qed.

(** X4.  For a username that is not in the table, [change_email] prints
    "<username> not found! Unable to update email.", returns normally and
    leaves the durable table as it was, whatever the new email is (also one
    that another record has). *)
Theorem change_email_absent (username new_email : string) (w : World) :
  ~ In username (map User.username (durable w)) ->
  change_email fresh_id username new_email w
  = (mkWorld (durable w) [] []
       (stdout w ++ [Line (username ++ " not found! Unable to update email.")]),
     inr tt).
Proof.
  intros H. apply change_email_not_found.
  now apply (find_column_absent User.username).
Qed.

(** X5.  Giving a user the email it already has is accepted: on a
    well-formed table [change_email] with the record's own email prints the
    confirmation, returns normally and leaves the durable table as it was;
    a record does not collide with itself. *)
Theorem change_email_same_email (username : string) (w : World) (x : User.t) :
  wf_table (durable w) ->
  In x (durable w) -> User.username x = username ->
  change_email fresh_id username (User.email x) w
  = (mkWorld (durable w) [] []
       (stdout w ++ [Line ("Updated " ++ username ++ "'s email to " ++ User.email x)]),
     inr tt).
Proof.
  intros Hwf Hx Hu.
  destruct (wf_row_in_place _ x Hwf Hx) as (pre & post & i & Ht & Hi & Hpre & Hids & Hem).
  rewrite Hu in Hpre.
  rewrite (change_email_at fresh_id username (User.email x) w pre post x i
             Ht Hu Hi Hpre Hids Hem).
  now rewrite with_email_same, Ht.
Qed.

(** X6.  Changing an email and changing it back is a round trip: on a
    well-formed table, after an accepted [change_email] to a new email, a
    [change_email] of the same user to the old email is accepted too and
    the durable table is again the one before the two calls. *)
Theorem change_email_round_trip
    (username new_email : string) (w : World) (x : User.t) :
  wf_table (durable w) ->
  In x (durable w) -> User.username x = username ->
  (forall y, In y (durable w) -> User.email y = new_email -> y = x) ->
  let changed := fst (change_email fresh_id username new_email w) in
  snd (change_email fresh_id username new_email w) = inr tt
  /\ change_email fresh_id username (User.email x) changed
     = (mkWorld (durable w) [] []
          (stdout changed
           ++ [Line ("Updated " ++ username ++ "'s email to " ++ User.email x)]),
        inr tt).
Proof.
  intros Hwf Hx Hu Hfree. cbv zeta.
  destruct (wf_row_in_place _ x Hwf Hx) as (pre & post & i & Ht & Hi & Hpre & Hids & Hem).
  rewrite Hu in Hpre.
  assert (Hnew : ~ In new_email (map User.email (pre ++ post))).
  { intros Hin. apply in_map_iff in Hin as (y & E & Hy).
    assert (Hyt : In y (durable w)).
    { rewrite Ht. apply in_app_or in Hy. apply in_or_app.
      destruct Hy; [now left|right; now right]. }
    specialize (Hids y Hy). rewrite (Hfree y Hyt E), Hi, id_eqb_refl in Hids.
    discriminate. }
  rewrite (change_email_at fresh_id username new_email w pre post x i
             Ht Hu Hi Hpre Hids Hnew).
  cbn [fst snd]. split; [reflexivity|].
  rewrite (change_email_at fresh_id username (User.email x)
             (mkWorld (pre ++ User.with_email new_email x :: post) [] []
                (stdout w
                 ++ [Line ("Updated " ++ username ++ "'s email to " ++ new_email)]))
             pre post (User.with_email new_email x) i eq_refl Hu Hi Hpre Hids Hem).
  cbn [durable stdout]. now rewrite with_email_twice, with_email_same, Ht.
Qed.

(** X7.  [get_user] answers for exactly the usernames of the table: it
    prints one item, which is either a record of the table that carries the
    requested username, or "<username> not found!" and then no record of the
    table carries it. *)
Theorem get_user_sound_complete (username : string) (w : World) :
  (exists x,
      In x (durable w) /\ User.username x = username
      /\ get_user username w
         = (mkWorld (durable w) [] [] (stdout w ++ [Rec x]), inr tt))
  \/ (~ In username (map User.username (durable w))
      /\ get_user username w
         = (mkWorld (durable w) [] []
              (stdout w ++ [Line (username ++ " not found!")]), inr tt)).
Proof.
  rewrite get_user_spec.
  destruct (find (fun u => String.eqb (User.username u) username) (durable w))
    as [x|] eqn:E.
  - left. exists x. apply find_some in E as [Hx Hu]. apply String.eqb_eq in Hu.
    repeat split; assumption.
  - right. split; [|reflexivity].
    intros Hin. apply in_map_iff in Hin as (y & Ey & Hy).
    pose proof (find_none _ _ E y Hy) as Hf. cbv beta in Hf.
    rewrite Ey, String.eqb_refl in Hf. discriminate.
Qed.

(** X8.  A created user goes to the end of the table: after an accepted
    [create_user], [get_all_users] prints the records that were there, in
    their order, and the new record last. *)
Theorem create_user_appends (username email password : string) (w : World) :
  ~ In username (map User.username (durable w)) ->
  ~ In email (map User.email (durable w)) ->
  let row := User.mk (Some (fresh_id (durable w))) username email password in
  let created := fst (create_user fresh_id username email password w) in
  get_all_users created
  = (mkWorld (durable w ++ [row]) [] []
       (stdout created ++ map Rec (durable w) ++ [Rec row]),
     inr tt).
Proof.
  intros Hu He. cbv zeta. rewrite create_user_spec.
  rewrite (existsb_column_absent User.username _ _ Hu).
  rewrite (existsb_column_absent User.email _ _ He).
  cbv zeta. cbn [fst]. rewrite get_all_users_spec. cbn [durable stdout].
  destruct (durable w) as [|a t]; simpl; [reflexivity|].
  rewrite map_app. reflexivity.
Qed.

(** X9.  Creating the same user twice leaves one record: after an accepted
    [create_user], every further [create_user] with that username (whatever
    its email) or with that email (whatever its username) is turned away
    with the message, and the durable table stays the one the first call
    left. *)
Theorem create_user_twice (username email password : string) (w : World) :
  ~ In username (map User.username (durable w)) ->
  ~ In email (map User.email (durable w)) ->
  let created := fst (create_user fresh_id username email password w) in
  let taken u e p :=
    exists c,
      create_user fresh_id u e p created
      = (mkWorld (durable created) [] []
           (stdout created ++ [Orig c; Line "Username or email already taken!"]),
         inr tt) in
  durable created
  = durable w ++ [User.mk (Some (fresh_id (durable w))) username email password]
  /\ (forall email' password', taken username email' password')
  /\ (forall username' password', taken username' email password').
Proof.
  intros Hu He. cbv zeta.
  assert (Hd : durable (fst (create_user fresh_id username email password w))
               = durable w
                 ++ [User.mk (Some (fresh_id (durable w))) username email password]).
  { rewrite create_user_spec.
    rewrite (existsb_column_absent User.username _ _ Hu).
    rewrite (existsb_column_absent User.email _ _ He). reflexivity. }
  split; [exact Hd|]. split.
  - intros email' password'.
    destruct (create_user_taken fresh_id username email' password'
                (fst (create_user fresh_id username email password w)))
      as (c & _ & Hr).
    + left. rewrite Hd, map_app. apply in_or_app. right. now left.
    + now exists c.
  - intros username' password'.
    destruct (create_user_taken fresh_id username' email password'
                (fst (create_user fresh_id username email password w)))
      as (c & _ & Hr).
    + right. rewrite Hd, map_app. apply in_or_app. right. now left.
    + now exists c.
Qed.

End Composition.

(** ** Search texts *)

Lemma prefix_occurs (p s : string) :
  String.prefix p s = true -> exists b, s = (p ++ b)%string.
Proof.
  revert s. induction p as [|c p IH]; intros s H.
  - exists s. reflexivity.
  - destruct s as [|d s]; simpl in H; [discriminate|].
    destruct (Ascii.ascii_dec c d) as [->|]; [|discriminate].
    destruct (IH s H) as (b & ->). exists b. reflexivity.
Qed.

(** The boolean substring test decides [occurs]. *)
Lemma is_substring_iff (p s : string) : is_substring p s = true <-> occurs p s.
Proof.
  split.
  - induction s as [|d s IH]; rewrite is_substring_unfold; intros H;
      apply orb_true_iff in H as [H|H]; try discriminate.
    + destruct (prefix_occurs _ _ H) as (b & E). now exists EmptyString, b.
    + destruct (prefix_occurs _ _ H) as (b & E). now exists EmptyString, b.
    + destruct (IH H) as (a & b & ->). now exists (String d a), b.
  - intros (a & b & ->). apply is_substring_app.
Qed.

Lemma is_substring_empty (s : string) : is_substring EmptyString s = true.
Proof. destruct s; reflexivity. Qed.

Section Reading.

Variable fresh_id : list User.t -> Z.

(** [change_email] on a row without a key (no well-formed table has one):
    the session takes the object for a new one and the insert collides with
    the row itself. *)
Lemma change_email_keyless (username new_email : string) (w : World) (row : User.t) :
  find (fun u => String.eqb (User.username u) username) (durable w) = Some row ->
  User.id row = None ->
  change_email fresh_id username new_email w
  = (mkWorld (durable w) [] [] (stdout w), inl (IntegrityError UniqueUsername)).
Proof.
  intros Hfind Hid.
  assert (Hex : existsb (fun x => String.eqb (User.username x) (User.username row))
                  (durable w) = true).
  { apply find_some in Hfind as [Hin _]. apply existsb_exists.
    exists row. split; [exact Hin|apply String.eqb_refl]. }
  rewrite <- filter_head_find in Hfind.
  unfold change_email, with_session, bind, exec_first. simpl.
  rewrite rows_where.
  destruct (filter _ (durable w)) as [|r rest]; [discriminate|].
  injection Hfind as ->.
  unfold set_email, db_add, db_commit, get, print. simpl.
  rewrite Hid. simpl. rewrite ?Hid. simpl. rewrite Hex. reflexivity.
Qed.

(** X10.  How the commands can end, on every table and every input:
    [initialize], [create_user], [delete_user], [get_user], [get_all_users]
    and [find_user_partial] always return normally; [change_email] returns
    normally or raises [IntegrityError], [list_users] returns normally or is
    refused with [BadParameter], and a command that does not return
    normally has changed neither the durable table nor the output. *)
Theorem commands_outcomes
    (w : World) (username email password new_email partial : string)
    (limit_ offset_ : Z) :
  snd (initialize fresh_id w) = inr tt
  /\ snd (create_user fresh_id username email password w) = inr tt
  /\ snd (delete_user fresh_id username w) = inr tt
  /\ snd (get_user username w) = inr tt
  /\ snd (get_all_users w) = inr tt
  /\ snd (find_user_partial partial w) = inr tt
  /\ (snd (change_email fresh_id username new_email w) = inr tt
      \/ exists c,
           change_email fresh_id username new_email w
           = (mkWorld (durable w) [] [] (stdout w), inl (IntegrityError c)))
  /\ (snd (list_users limit_ offset_ w) = inr tt
      \/ exists param,
           list_users limit_ offset_ w = (w, inl (BadParameter param))).
Proof.
  split; [now rewrite initialize_spec|].
  split.
  { rewrite create_user_spec.
    destruct (existsb _ (durable w)); [reflexivity|].
    destruct (existsb _ (durable w)); reflexivity. }
  split.
  { rewrite delete_user_spec. destruct (find _ (durable w)); reflexivity. }
  split; [now rewrite get_user_spec|].
  split; [now rewrite get_all_users_spec|].
  split; [now rewrite find_user_partial_spec|].
  split.
  - destruct (find (fun u => String.eqb (User.username u) username) (durable w))
      as [row|] eqn:Ef.
    + destruct (User.id row) as [i|] eqn:Ei.
      * rewrite (change_email_found _ _ _ _ row i Ef Ei).
        destruct (existsb _ (durable w)); [right|left; reflexivity].
        now exists UniqueEmail.
      * right. exists UniqueUsername. now apply (change_email_keyless _ _ _ row).
    + left. now rewrite (change_email_not_found _ _ _ _ Ef).
  - rewrite list_users_spec.
    destruct (limit_ <? 1)%Z; [right; now exists "limit"%string|].
    destruct (offset_ <? 0)%Z; [right; now exists "offset"%string|].
    left. reflexivity.
Qed.

(** X11.  An offset at or past the end of the table is not an error:
    [list_users] with a valid limit prints "No users found!", returns
    normally and leaves the table as it was. *)
Theorem list_users_past_end (limit_ offset_ : Z) (w : World) :
  (1 <= limit_)%Z ->
  (Z.of_nat (List.length (durable w)) <= offset_)%Z ->
  list_users limit_ offset_ w
  = (mkWorld (durable w) [] [] (stdout w ++ [Line "No users found!"]), inr tt).
Proof.
  intros Hl Ho. rewrite list_users_spec.
  destruct (Z.ltb_spec limit_ 1) as [?|_]; [lia|].
  destruct (Z.ltb_spec offset_ 0) as [?|_]; [lia|].
  rewrite skipn_all2 by lia. rewrite firstn_nil. reflexivity.
Qed.

(** X12.  The page of [list_users]: with a valid limit and an offset inside
    the table, it prints records only, at least one and at most [limit],
    as many as the table has from the offset on up to the limit, and the
    k-th printed record is the row at position offset + k of the table. *)
Theorem list_users_window (limit_ offset_ : Z) (w : World) :
  (1 <= limit_)%Z -> (0 <= offset_)%Z ->
  (offset_ < Z.of_nat (List.length (durable w)))%Z ->
  exists rows,
    list_users limit_ offset_ w
    = (mkWorld (durable w) [] [] (stdout w ++ map Rec rows), inr tt)
    /\ List.length rows
       = Nat.min (Z.to_nat limit_) (List.length (durable w) - Z.to_nat offset_)
    /\ (1 <= List.length rows <= Z.to_nat limit_)%nat
    /\ forall k, (k < List.length rows)%nat ->
         nth_error rows k = nth_error (durable w) (Z.to_nat offset_ + k).
Proof.
  intros Hl Ho Hin. rewrite list_users_spec.
  destruct (Z.ltb_spec limit_ 1) as [?|_]; [lia|].
  destruct (Z.ltb_spec offset_ 0) as [?|_]; [lia|].
  set (rows := firstn (Z.to_nat limit_) (skipn (Z.to_nat offset_) (durable w))).
  assert (Hlen : List.length rows
                 = Nat.min (Z.to_nat limit_)
                     (List.length (durable w) - Z.to_nat offset_)).
  { unfold rows. now rewrite length_firstn, length_skipn. }
  exists rows. split; [|split; [exact Hlen|split; [lia|]]].
  - destruct rows as [|r rows']; [simpl in Hlen; lia|reflexivity].
  - intros k Hk. unfold rows. rewrite nth_error_firstn.
    destruct (Nat.ltb_spec k (Z.to_nat limit_)) as [_|?]; [|lia].
    apply nth_error_skipn.
Qed.

(** X13.  With offset 0 and a limit that is at least the number of rows,
    [list_users] does exactly what [get_all_users] does: same output, same
    final state. *)
Theorem list_users_all (limit_ : Z) (w : World) :
  (1 <= limit_)%Z ->
  (Z.of_nat (List.length (durable w)) <= limit_)%Z ->
  list_users limit_ 0 w = get_all_users w.
Proof.
  intros Hl Hn. rewrite list_users_spec, get_all_users_spec.
  destruct (Z.ltb_spec limit_ 1) as [?|_]; [lia|].
  simpl. rewrite firstn_all2 by lia. reflexivity.
Qed.

(** X14.  On a search text without [%] and [_], [find_user_partial] prints
    the records in whose username or email the text occurs, each once per
    row and in store order, and its "No users found matching" message when
    there is none. *)
Theorem find_user_partial_occurs (partial : string) (w : World) :
  wildcard_free partial = true ->
  exists rows,
    find_user_partial partial w
    = (mkWorld (durable w) [] []
         (stdout w
          ++ match rows with
             | [] => [Line ("No users found matching " ++ dquote ++ partial ++ dquote)]
             | _ => map Rec rows
             end),
       inr tt)
    /\ rows = filter (fun u => is_substring partial (User.username u)
                               || is_substring partial (User.email u)) (durable w)
    /\ forall x, In x rows
                 <-> In x (durable w)
                     /\ (occurs partial (User.username x)
                         \/ occurs partial (User.email x)).
Proof.
  intros Hp.
  exists (filter (fun u => is_substring partial (User.username u)
                           || is_substring partial (User.email u)) (durable w)).
  split.
  { rewrite (find_user_partial_plain partial w Hp).
    destruct (filter _ (durable w)); reflexivity. }
  split; [reflexivity|].
  intros x. rewrite filter_In, orb_true_iff, !is_substring_iff. reflexivity.
Qed.

(** X15.  The empty search text matches every record: [find_user_partial]
    then prints the whole table in store order, and its message only when
    the table is empty. *)
Theorem find_user_partial_empty (w : World) :
  find_user_partial EmptyString w
  = (mkWorld (durable w) [] []
       (stdout w
        ++ match durable w with
           | [] => [Line ("No users found matching " ++ dquote ++ dquote)]
           | rows => map Rec rows
           end),
     inr tt).
Proof.
  rewrite find_user_partial_spec. rewrite filter_keep_all; [reflexivity|].
  intros y _. rewrite (contains_plain EmptyString) by reflexivity.
  now rewrite is_substring_empty.
Qed.

End Reading.

Section Identity.

Variable fresh_id : list User.t -> Z.

Lemma map_update_column {B : Type} (col : User.t -> B) (c : User.t -> bool)
    (e : string) (table : list User.t) :
  (forall x, col (User.with_email e x) = col x) ->
  map col (map (fun x => if c x then User.with_email e x else x) table)
  = map col table.
Proof.
  intros H. rewrite map_map. apply map_ext. intros x.
  destruct (c x); [apply H|reflexivity].
Qed.

(** X16.  [change_email] touches emails only: whatever the table and the
    arguments, and however the command ends, the durable table afterwards
    has the same ids, usernames and passwords, row by row in the same
    order, as before; no record is added or removed. *)
Theorem change_email_keeps_identity (username new_email : string) (w : World) :
  let after := durable (fst (change_email fresh_id username new_email w)) in
  map User.id after = map User.id (durable w)
  /\ map User.username after = map User.username (durable w)
  /\ map User.password after = map User.password (durable w)
  /\ List.length after = List.length (durable w).
Proof.
  cbv zeta.
  destruct (find (fun u => String.eqb (User.username u) username) (durable w))
    as [row|] eqn:Ef.
  - destruct (User.id row) as [i|] eqn:Ei.
    + rewrite (change_email_found _ _ _ _ row i Ef Ei).
      destruct (existsb _ (durable w)); cbn [fst durable].
      * repeat split; reflexivity.
      * rewrite !map_update_column by reflexivity.
        rewrite length_map. repeat split; reflexivity.
    + rewrite (change_email_keyless _ _ _ _ row Ef Ei). repeat split; reflexivity.
  - rewrite (change_email_not_found _ _ _ _ Ef). repeat split; reflexivity.
Qed.

End Identity.

(** ** The further properties on concrete tables *)

(** X17 with [next_rowid], on bob's table. *)
Lemma wf_table_preserved_witness :
  (forall table, ~ In (Some (next_rowid table)) (map User.id table))
  /\ wf_table (durable (fst (initialize next_rowid (fresh_process [bob_row]))))
  /\ wf_table (durable (fst (create_user next_rowid "alice" "alice@mail.com"
                               "alicepass" (fresh_process [bob_row])))).
Proof.
  assert (Hwf : wf_table (durable (fresh_process [bob_row]))) by concrete_wf.
  destruct (wf_table_preserved next_rowid next_rowid_new (fresh_process [bob_row]))
    as (Hinit & Hkeep).
  destruct (Hkeep Hwf) as (Hcreate & _).
  split; [exact next_rowid_new|]. split; [exact Hinit|].
  exact (Hcreate "alice" "alice@mail.com" "alicepass").
Defined.

(** X1 on the table of bob and alice: alice is deleted. *)
Lemma delete_user_removes_one_witness :
  (wf_table [bob_row; alice_row]
   /\ In alice_row [bob_row; alice_row] /\ User.username alice_row = "alice")
  /\ exists pre post,
       [bob_row; alice_row] = pre ++ alice_row :: post
       /\ delete_user next_rowid "alice" (fresh_process [bob_row; alice_row])
          = (mkWorld (pre ++ post) [] [] [Line "User alice deleted successfully."],
             inr tt).
Proof.
  assert (Hwf : wf_table [bob_row; alice_row]) by concrete_wf.
  assert (Hin : In alice_row [bob_row; alice_row]) by (simpl; auto).
  split; [split; [exact Hwf|split; [exact Hin|reflexivity]]|].
  destruct (delete_user_removes_one next_rowid "alice"
              (fresh_process [bob_row; alice_row]) alice_row Hwf Hin eq_refl)
    as (pre & post & Ht & Hdel & _).
  exists pre, post. split; assumption.
Defined.

(** X2 on bob's table: alice is created and deleted again. *)
Lemma create_then_delete_restores_witness :
  (~ In "alice" (map User.username [bob_row])
   /\ ~ In "alice@mail.com" (map User.email [bob_row])
   /\ ~ In (Some (next_rowid [bob_row])) (map User.id [bob_row]))
  /\ delete_user next_rowid "alice"
       (fst (create_user next_rowid "alice" "alice@mail.com" "alicepass"
               (fresh_process [bob_row])))
     = (mkWorld [bob_row] [] []
          [Rec alice_row; Line "User alice deleted successfully."], inr tt).
Proof.
  assert (Hu : ~ In "alice" (map User.username (durable (fresh_process [bob_row]))))
    by (simpl; intuition discriminate).
  assert (He : ~ In "alice@mail.com" (map User.email (durable (fresh_process [bob_row]))))
    by (simpl; intuition discriminate).
  assert (Hn : ~ In (Some (next_rowid (durable (fresh_process [bob_row]))))
                    (map User.id (durable (fresh_process [bob_row]))))
    by (simpl; intuition discriminate).
  split; [repeat split; assumption|].
  exact (proj2 (create_then_delete_restores next_rowid "alice" "alice@mail.com"
                  "alicepass" (fresh_process [bob_row]) Hu He Hn)).
Defined.

(** X3 on the table of bob and alice: bob is deleted and created again. *)
Lemma delete_then_create_again_witness :
  (wf_table [bob_row; alice_row]
   /\ In bob_row [bob_row; alice_row] /\ User.username bob_row = "bob")
  /\ exists pre post,
       [bob_row; alice_row] = pre ++ bob_row :: post
       /\ snd (create_user next_rowid "bob" "bob@mail.com" "newpass"
                 (fst (delete_user next_rowid "bob"
                         (fresh_process [bob_row; alice_row]))))
          = inr tt.
Proof.
  assert (Hwf : wf_table [bob_row; alice_row]) by concrete_wf.
  assert (Hin : In bob_row [bob_row; alice_row]) by (simpl; auto).
  split; [split; [exact Hwf|split; [exact Hin|reflexivity]]|].
  destruct (delete_then_create_again next_rowid "bob" "newpass"
              (fresh_process [bob_row; alice_row]) bob_row Hwf Hin eq_refl)
    as (pre & post & Ht & Hc).
  exists pre, post. split; [exact Ht|].
  cbv zeta in Hc. simpl User.email in Hc. rewrite Hc. reflexivity.
Defined.

(** X4 on bob's table: nobody is called "zed". *)
Lemma change_email_absent_witness :
  ~ In "zed" (map User.username [bob_row])
  /\ change_email next_rowid "zed" "bob@mail.com" (fresh_process [bob_row])
     = (mkWorld [bob_row] [] [] [Line "zed not found! Unable to update email."],
        inr tt).
Proof.
  assert (H : ~ In "zed" (map User.username (durable (fresh_process [bob_row]))))
    by (simpl; intuition discriminate).
  split; [exact H|].
  exact (change_email_absent next_rowid "zed" "bob@mail.com" (fresh_process [bob_row]) H).
Defined.

(** X5 on the table of bob and alice: bob keeps his email. *)
Lemma change_email_same_email_witness :
  (wf_table [bob_row; alice_row]
   /\ In bob_row [bob_row; alice_row] /\ User.username bob_row = "bob")
  /\ change_email next_rowid "bob" "bob@mail.com" (fresh_process [bob_row; alice_row])
     = (mkWorld [bob_row; alice_row] [] []
          [Line "Updated bob's email to bob@mail.com"], inr tt).
Proof.
  assert (Hwf : wf_table [bob_row; alice_row]) by concrete_wf.
  assert (Hin : In bob_row [bob_row; alice_row]) by (simpl; auto).
  split; [split; [exact Hwf|split; [exact Hin|reflexivity]]|].
  exact (change_email_same_email next_rowid "bob"
           (fresh_process [bob_row; alice_row]) bob_row Hwf Hin eq_refl).
Defined.

(** X6 on the table of bob and alice: alice moves and moves back. *)
Lemma change_email_round_trip_witness :
  (wf_table [bob_row; alice_row]
   /\ In alice_row [bob_row; alice_row] /\ User.username alice_row = "alice"
   /\ forall y, In y [bob_row; alice_row] -> User.email y = "al@mail.com" -> y = alice_row)
  /\ durable (fst (change_email next_rowid "alice" "alice@mail.com"
                     (fst (change_email next_rowid "alice" "al@mail.com"
                             (fresh_process [bob_row; alice_row])))))
     = [bob_row; alice_row].
Proof.
  assert (Hwf : wf_table [bob_row; alice_row]) by concrete_wf.
  assert (Hin : In alice_row [bob_row; alice_row]) by (simpl; auto).
  assert (Hfree : forall y, In y [bob_row; alice_row] ->
                            User.email y = "al@mail.com" -> y = alice_row).
  { intros y [<-|[<-|[]]] E; [discriminate E|reflexivity]. }
  split; [split; [exact Hwf|split; [exact Hin|split; [reflexivity|exact Hfree]]]|].
  destruct (change_email_round_trip next_rowid "alice" "al@mail.com"
              (fresh_process [bob_row; alice_row]) alice_row Hwf Hin eq_refl Hfree)
    as (_ & Hback).
  simpl User.email in Hback. rewrite Hback. reflexivity.
Defined.

(** X8 on bob's table: alice is listed after bob. *)
Lemma create_user_appends_witness :
  (~ In "alice" (map User.username [bob_row])
   /\ ~ In "alice@mail.com" (map User.email [bob_row]))
  /\ get_all_users
       (fst (create_user next_rowid "alice" "alice@mail.com" "alicepass"
               (fresh_process [bob_row])))
     = (mkWorld [bob_row; alice_row] [] []
          [Rec alice_row; Rec bob_row; Rec alice_row], inr tt).
Proof.
  assert (Hu : ~ In "alice" (map User.username (durable (fresh_process [bob_row]))))
    by (simpl; intuition discriminate).
  assert (He : ~ In "alice@mail.com" (map User.email (durable (fresh_process [bob_row]))))
    by (simpl; intuition discriminate).
  split; [split; assumption|].
  exact (create_user_appends next_rowid "alice" "alice@mail.com" "alicepass"
           (fresh_process [bob_row]) Hu He).
Defined.

(** X9 on bob's table: alice is created once, and not a second time. *)
Lemma create_user_twice_witness :
  (~ In "alice" (map User.username [bob_row])
   /\ ~ In "alice@mail.com" (map User.email [bob_row]))
  /\ exists c,
       create_user next_rowid "alice" "other@mail.com" "otherpass"
         (fst (create_user next_rowid "alice" "alice@mail.com" "alicepass"
                 (fresh_process [bob_row])))
       = (mkWorld [bob_row; alice_row] [] []
            [Rec alice_row; Orig c; Line "Username or email already taken!"], inr tt).
Proof.
  assert (Hu : ~ In "alice" (map User.username (durable (fresh_process [bob_row]))))
    by (simpl; intuition discriminate).
  assert (He : ~ In "alice@mail.com" (map User.email (durable (fresh_process [bob_row]))))
    by (simpl; intuition discriminate).
  split; [split; assumption|].
  destruct (create_user_twice next_rowid "alice" "alice@mail.com" "alicepass"
              (fresh_process [bob_row]) Hu He) as (_ & Hsame & _).
  exact (Hsame "other@mail.com" "otherpass").
Defined.

(** X11 on the table of bob and alice: a page past the end. *)
Lemma list_users_past_end_witness :
  ((1 <= 2)%Z /\ (Z.of_nat (List.length [bob_row; alice_row]) <= 5)%Z)
  /\ list_users 2 5 (fresh_process [bob_row; alice_row])
     = (mkWorld [bob_row; alice_row] [] [] [Line "No users found!"], inr tt).
Proof.
  assert (Hl : (1 <= 2)%Z) by lia.
  assert (Ho : (Z.of_nat (List.length (durable (fresh_process [bob_row; alice_row])))
                <= 5)%Z) by (simpl; lia).
  split; [split; assumption|].
  exact (list_users_past_end 2 5 (fresh_process [bob_row; alice_row]) Hl Ho).
Defined.

(** X12 on the table of bob and alice: the second page of size one. *)
Lemma list_users_window_witness :
  ((1 <= 1)%Z /\ (0 <= 1)%Z /\ (1 < Z.of_nat (List.length [bob_row; alice_row]))%Z)
  /\ exists rows,
       list_users 1 1 (fresh_process [bob_row; alice_row])
       = (mkWorld [bob_row; alice_row] [] [] (map Rec rows), inr tt)
       /\ List.length rows = 1%nat.
Proof.
  assert (Hl : (1 <= 1)%Z) by lia.
  assert (Ho : (0 <= 1)%Z) by lia.
  assert (Hi : (1 < Z.of_nat (List.length (durable (fresh_process [bob_row; alice_row]))))%Z)
    by (simpl; lia).
  split; [split; [exact Hl|split; [exact Ho|exact Hi]]|].
  destruct (list_users_window 1 1 (fresh_process [bob_row; alice_row]) Hl Ho Hi)
    as (rows & Hr & Hlen & _).
  exists rows. split; [exact Hr|exact Hlen].
Defined.

(** X13 on the table of bob and alice: the default page is the whole table. *)
Lemma list_users_all_witness :
  ((1 <= 10)%Z /\ (Z.of_nat (List.length [bob_row; alice_row]) <= 10)%Z)
  /\ list_users 10 0 (fresh_process [bob_row; alice_row])
     = get_all_users (fresh_process [bob_row; alice_row]).
Proof.
  assert (Hl : (1 <= 10)%Z) by lia.
  assert (Hn : (Z.of_nat (List.length (durable (fresh_process [bob_row; alice_row])))
                <= 10)%Z) by (simpl; lia).
  split; [split; assumption|].
  exact (list_users_all 10 (fresh_process [bob_row; alice_row]) Hl Hn).
Defined.

(** X14 on the table of bob and alice: "lic" occurs in alice's fields only. *)
Lemma find_user_partial_occurs_witness :
  wildcard_free "lic" = true
  /\ exists rows,
       find_user_partial "lic" (fresh_process [bob_row; alice_row])
       = (mkWorld [bob_row; alice_row] [] []
            match rows with
            | [] => [Line ("No users found matching " ++ dquote ++ "lic" ++ dquote)]
            | _ => map Rec rows
            end, inr tt)
       /\ rows = [alice_row].
Proof.
  assert (Hp : wildcard_free "lic" = true) by reflexivity.
  split; [exact Hp|].
  destruct (find_user_partial_occurs "lic" (fresh_process [bob_row; alice_row]) Hp)
    as (rows & Hr & Hrows & _).
  exists rows. split; [exact Hr|exact Hrows].
Defined.
